(** * signage_pi: playback orchestration and synchronisation engine

    A shallow embedding of the playlist resolver, the slide conversion
    cache, the command mailboxes, the main loop of the controller, the
    synchronised-position computation, the caches of the stream server
    and the editing of the ordering, from [player.py], [web_player.py],
    [presentation_converter.py] and [dashboard.py], followed by the
    properties proved about them.

    Conventions.  Python integers are [Z]; Python strings are [string]
    (code points below 256); Python lists are [list]; dictionaries with a
    fixed set of keys are records, a missing key being [None]; the slide
    cache directory tree is a [gmap] from directory name to its entries;
    readings of the clock and modification times are floats.
    Functions that read or write files take and return the [World]. *)

From Stdlib Require Import ZArith Lia List String Ascii QArith_base.
From Stdlib Require Import DecimalString DecimalZ.
From Stdlib Require Import Floats.PrimFloat.
From stdpp Require Import base list gmap strings sorting.
Import ListNotations.

Set Warnings "-register-all".

(* ================================================================== *)
(** * Part I: the embedding *)
(* ================================================================== *)

(** ** Python strings and paths *)

Module Py.

(** Characters that [int()] strips as white space, among the code
    points below 256. *)
Definition is_space (c : ascii) : bool :=
  let n := nat_of_ascii c in
  ((9 <=? n) && (n <=? 13)) || ((28 <=? n) && (n <=? 32))
  || (n =? 133) || (n =? 160).

Fixpoint lstrip (cs : list ascii) : list ascii :=
  match cs with
  | c :: rest => if is_space c then lstrip rest else cs
  | [] => []
  end.

Definition strip (cs : list ascii) : list ascii :=
  rev (lstrip (rev (lstrip cs))).

(** Decimal digits, with single underscores allowed between two digits. *)
Fixpoint parse_digits (cs : list ascii) (acc : Z) (after_digit : bool)
    : option Z :=
  match cs with
  | [] => if after_digit then Some acc else None
  | c :: rest =>
      match Ascii.is_nat c with
      | Some d => parse_digits rest (10 * acc + Z.of_nat d) true
      | None =>
          if Ascii.eqb c "_" && after_digit
          then parse_digits rest acc false
          else None
      end
  end.

(** [int(s)] for a string [s]; [None] stands for [ValueError].  The
    interpreter's limit on the number of digits of a numeral (4300 by
    default in recent versions) is not modelled. *)
Definition int_of_str (s : string) : option Z :=
  match strip (list_ascii_of_string s) with
  | "-"%char :: ds => Z.opp <$> parse_digits ds 0 false
  | "+"%char :: ds => parse_digits ds 0 false
  | ds => parse_digits ds 0 false
  end.

(** [str(n)] for an integer [n]. *)
Definition str_of_int (n : Z) : string :=
  NilEmpty.string_of_int (Z.to_int n).

(** [s.upper()] and [s.lower()] on the ASCII letters; the extension
    constants they are applied to are ASCII. *)
Definition upper_char (c : ascii) : ascii :=
  let n := nat_of_ascii c in
  if (97 <=? n) && (n <=? 122) then ascii_of_nat (n - 32) else c.

Definition lower_char (c : ascii) : ascii :=
  let n := nat_of_ascii c in
  if (65 <=? n) && (n <=? 90) then ascii_of_nat (n + 32) else c.

Fixpoint map_string (f : ascii -> ascii) (s : string) : string :=
  match s with
  | EmptyString => EmptyString
  | String c rest => String (f c) (map_string f rest)
  end.

Definition upper : string -> string := map_string upper_char.
Definition lower : string -> string := map_string lower_char.

Definition startswith (s pre : string) : bool := String.prefix pre s.

Definition endswith (s suf : string) : bool :=
  String.prefix (String.rev suf) (String.rev s).

(** Split at every ["/"]. *)
Fixpoint split_slash (cur : string) (s : string) : list string :=
  match s with
  | EmptyString => [String.rev cur]
  | String c rest =>
      if Ascii.eqb c "/" then String.rev cur :: split_slash "" rest
      else split_slash (String c cur) rest
  end.

(** [PurePosixPath(s).name]: the last component, empty and ["."]
    components being dropped when the path is parsed. *)
Definition path_name (s : string) : string :=
  List.last
    (filter (fun part => part <> "" /\ part <> ".") (split_slash "" s)) "".

(** Position of the last ["."] of [s], counted from the end. *)
Fixpoint rfind_dot (rev_s : string) (k : nat) : option nat :=
  match rev_s with
  | EmptyString => None
  | String c rest =>
      if Ascii.eqb c "." then Some k else rfind_dot rest (S k)
  end.

(** [name.suffix] of a final component: from its last dot, unless that
    dot is the first or the last character. *)
Definition name_suffix (name : string) : string :=
  match rfind_dot (String.rev name) 0 with
  | Some k =>
      let i := (String.length name - 1 - k)%nat in
      if (0 <? i)%nat && (0 <? k)%nat
      then substring i (S k) name else ""
  | None => ""
  end.

(** [name.stem]: the final component without its suffix. *)
Definition name_stem (name : string) : string :=
  substring 0 (String.length name - String.length (name_suffix name)) name.

Definition path_suffix (s : string) : string := name_suffix (path_name s).
Definition path_stem (s : string) : string := name_stem (path_name s).

(** A [Path] below one of the fixed directories: the directory and
    the file name in it. *)
Record Path := mkPath { parent : string; fname : string }.

(** [str(path)] *)
Definition path_str (p : Path) : string := parent p +:+ "/" +:+ fname p.

(** [sorted(...)] on names of one directory. *)
Definition sorted (names : list string) : list string :=
  merge_sort String.le names.

(** A single path component: a possible name of a directory entry. *)
Fixpoint has_slash (s : string) : bool :=
  match s with
  | EmptyString => false
  | String c rest => Ascii.eqb c "/" || has_slash rest
  end.

Definition is_component (n : string) : bool :=
  negb (String.eqb n "") && negb (String.eqb n ".")
  && negb (String.eqb n "..") && negb (has_slash n).

(** [dir.glob("*" + ext)]: the entries of [dir] that end in [ext]. *)
Definition glob_suffix (dir : gset string) (ext : string) : list string :=
  filter (fun n => is_component n && endswith n ext = true) (elements dir).

(** The loop [for ext in formats: files.extend(dir.glob(f"*{ext}"));
    files.extend(dir.glob(f"*{ext.upper()}"))]. *)
Definition glob_formats (dir : gset string) (formats : list string)
    : list string :=
  flat_map (fun ext => glob_suffix dir ext ++ glob_suffix dir (upper ext))
    formats.

(** [dir.glob("slide_*.png")] *)
Definition is_slide_png (n : string) : bool :=
  startswith n "slide_" && endswith n ".png"
  && (10 <=? String.length n)%nat.

Definition glob_slides (dir : gset string) : list string :=
  filter (fun n => is_slide_png n = true) (elements dir).

End Py.

(** ** JSON values, as [json.load] returns them *)

Module Json.

(** A Python float: a finite double is a rational. *)
Inductive pyfloat :=
| FFinite (q : Q)
| FInf (negative : bool)
| FNaN.

Inductive json :=
| JNull
| JBool (b : bool)
| JInt (n : Z)
| JFloat (f : pyfloat)
| JStr (s : string)
| JArr (items : list json)
| JObj (fields : list (string * json)).

(** A dictionary keeps the last value given for a key. *)
Fixpoint dict_lookup (key : string) (fields : list (string * json))
    : option json :=
  match fields with
  | [] => None
  | (k, v) :: rest =>
      match dict_lookup key rest with
      | Some v' => Some v'
      | None => if String.eqb k key then Some v else None
      end
  end.

(** [d.get(key)] and [d.get(key, default)] *)
Definition dict_get (fields : list (string * json)) (key : string) : json :=
  match dict_lookup key fields with
  | Some v => v
  | None => JNull
  end.

Definition dict_get_default (fields : list (string * json)) (key : string)
    (default : json) : json :=
  match dict_lookup key fields with
  | Some v => v
  | None => default
  end.

(** Truth value of a Python object. *)
Definition truthy (v : json) : bool :=
  match v with
  | JNull => false
  | JBool b => b
  | JInt n => negb (n =? 0)%Z
  | JFloat (FFinite q) => negb (Qnum q =? 0)%Z
  | JFloat _ => true
  | JStr s => negb (String.eqb s "")
  | JArr items => match items with [] => false | _ => true end
  | JObj fields => match fields with [] => false | _ => true end
  end.

(** [a or b] *)
Definition py_or (a b : json) : json := if truthy a then a else b.

(** [int(v)]; [None] stands for the exception it raises ([TypeError],
    [ValueError] or [OverflowError]).  A float is truncated towards
    zero. *)
Definition py_int (v : json) : option Z :=
  match v with
  | JInt n => Some n
  | JBool b => Some (if b then 1 else 0)%Z
  | JFloat (FFinite q) => Some (Z.quot (Qnum q) (Zpos (Qden q)))
  | JFloat _ => None
  | JStr s => Py.int_of_str s
  | JNull | JArr _ | JObj _ => None
  end.

(** What a file holds, as far as [json.loads(f.read_text())] sees it. *)
Inductive FileState :=
| Absent                (* the file does not exist *)
| Corrupt               (* it exists and [json.loads] raises *)
| Holds (value : json). (* it exists and parses to [value] *)

Definition file_exists (f : FileState) : bool :=
  match f with Absent => false | _ => true end.

End Json.

(** ** Normalisation of the ordering file *)

Module Ordering.
Import Json.
Local Open Scope Z_scope.

(** A normalised entry [{'name': ..., 'repeats': ...}].  The name is
    whatever truthy value the file gave. *)
Record Entry := mkEntry { e_name : json; e_repeats : Z }.

(** The [repeats] of a dictionary entry:
    [try: int(entry.get('repeats', 1)) except Exception: 1]. *)
Definition entry_repeats (fields : list (string * json)) : Z :=
  match py_int (dict_get_default fields "repeats" (JInt 1)) with
  | Some r => r
  | None => 1
  end.

(** [entry.get('name') or entry.get('filename')] *)
Definition entry_name (fields : list (string * json)) : json :=
  py_or (dict_get fields "name") (dict_get fields "filename").

(** The loop [for entry in data: ...] that appends to [selected]. *)
Fixpoint normalize_loop (data : list json) (selected : list Entry)
    : list Entry :=
  match data with
  | [] => selected
  | entry :: rest =>
      match entry with
      | JStr s => normalize_loop rest (selected ++ [mkEntry (JStr s) 1])
      | JObj fields =>
          let name := entry_name fields in
          let repeats := entry_repeats fields in
          if truthy name
          then normalize_loop rest
                 (selected ++ [mkEntry name (Z.max 1 repeats)])
          else normalize_loop rest selected
      | _ => normalize_loop rest selected
      end
  end.

(** The reading of [playlist.json] at the start of
    [build_playlist_items] ([player.py]) and of [get_playlist_uncached]
    ([web_player.py]): [selected] stays empty unless the file exists,
    parses and holds a list. *)
Definition read_selected (f : FileState) : list Entry :=
  match f with
  | Holds (JArr data) => normalize_loop data []
  | _ => []
  end.

(** [read_playlist] of [dashboard.py]: the parsed file, or [[]]. *)
Definition read_playlist (f : FileState) : json :=
  match f with
  | Holds v => v
  | _ => JArr []
  end.

(** [normalize_playlist_to_objects] of [dashboard.py] *)
Definition normalize_playlist_to_objects (raw : json) : list Entry :=
  if negb (truthy raw) then []
  else match raw with
       | JArr data => normalize_loop data []
       | _ => []
       end.

(** One entry on its own, as the three loops treat it. *)
Definition normalize_entry (entry : json) : list Entry :=
  normalize_loop [entry] [].

End Ordering.

(** ** The world around the programs *)

Module Env.
Import Json.

(** How a run of an external conversion tool ends, as
    [subprocess.run(cmd, check=True, timeout=...)] sees it. *)
Inductive ToolStatus :=
| ExitOk
| ExitNonZero      (* [CalledProcessError] *)
| TimedOut         (* [TimeoutExpired] *)
| NotInstalled.    (* [FileNotFoundError]: no such program *)

(** A run of a tool: how it ends and the names of the files it has
    written into its output directory by then. *)
Record ToolRun := mkToolRun {
  run_status : ToolStatus;
  run_outputs : list string
}.

(** The two command lines of the conversion pipeline, with the input
    file and the cache entry written to. *)
Inductive ToolCmd :=
| Libreoffice (pptx_file : string) (outdir : string)
| ImageMagick (pdf_file : string) (outdir : string).

Definition cmd_outdir (cmd : ToolCmd) : string :=
  match cmd with
  | Libreoffice _ d => d
  | ImageMagick _ d => d
  end.

(** The player process started by [subprocess.Popen]: running or
    suspended with the playlist file it was started on, or gone. *)
Inductive ProcState :=
| Running (playlist : option (list string))
| Suspended (playlist : option (list string))
| Exited.

(** The controller object [self] of [SmartPlaylistPlayer]:
    [vlc_process] is the pid of the process last started, if any. *)
Record PlayerState := mkPlayer {
  vlc_process : option nat;
  current_playlist_hash : option Z;
  pending_update : bool
}.

(** The messages of the log that the properties refer to. *)
Inductive LogEvent :=
| LogConverting (name : string)           (* "Converting PPTX/PDF: ..." *)
| LogConverted (name : string) (n : nat)  (* "Converted ...: n slides" *)
| LogConvertFailed (name : string)        (* "Failed to convert ..." *)
| LogUnsupported (ext : string)           (* "Unsupported format: ..." *)
| LogOrphan (name : json)                 (* "Skipping orphaned playlist item" *)
| LogRemovedOrphan (name : json)          (* "Removed orphaned playlist item" *)
| LogCommand (action : json)              (* "Received command: ..." *)
| LogPaused
| LogResumed
| LogApplied (action : json)              (* "Action ... applied" *)
| LogCommandError.                        (* "Error processing command" *)

(** Files, external programs and history.

    - [videos_dir] and [presentations_dir] hold every relative name [n]
      for which [(DIR / n).exists()]; a glob sees the single components
      among them.
    - [slides_cache] maps the name [d] of every directory
      [SLIDES_CACHE_DIR / d] to its entries; the key [""] is the cache
      root itself.
    - [tool_oracle k cmd] is what the [k]-th run of an external tool does
      when it is [cmd]; [tool_runs] records the runs so far.
    - [procs] are the player processes ever started, by pid, and
      [player] is the controller object. *)
Record World := mkWorld {
  videos_dir : gset string;
  presentations_dir : gset string;
  slides_cache : gmap string (gset string);
  playlist_json : FileState;
  playlist_m3u : option (list string);
  signage_cmd : FileState;
  web_cmd : FileState;
  tool_oracle : nat -> ToolCmd -> ToolRun;
  cvlc_installed : bool;
  m3u_writable : bool;
  json_writable : bool;
  tool_runs : list ToolCmd;
  procs : list ProcState;
  player : PlayerState;
  log : list LogEvent
}.

Definition set_slides_cache (c : gmap string (gset string)) (w : World)
    : World :=
  mkWorld (videos_dir w) (presentations_dir w) c (playlist_json w)
    (playlist_m3u w) (signage_cmd w) (web_cmd w) (tool_oracle w)
    (cvlc_installed w) (m3u_writable w) (json_writable w) (tool_runs w)
    (procs w) (player w) (log w).

Definition set_playlist_json (f : FileState) (w : World) : World :=
  mkWorld (videos_dir w) (presentations_dir w) (slides_cache w) f
    (playlist_m3u w) (signage_cmd w) (web_cmd w) (tool_oracle w)
    (cvlc_installed w) (m3u_writable w) (json_writable w) (tool_runs w)
    (procs w) (player w) (log w).

Definition set_playlist_m3u (f : option (list string)) (w : World) : World :=
  mkWorld (videos_dir w) (presentations_dir w) (slides_cache w)
    (playlist_json w) f (signage_cmd w) (web_cmd w) (tool_oracle w)
    (cvlc_installed w) (m3u_writable w) (json_writable w) (tool_runs w)
    (procs w) (player w) (log w).

Definition set_signage_cmd (f : FileState) (w : World) : World :=
  mkWorld (videos_dir w) (presentations_dir w) (slides_cache w)
    (playlist_json w) (playlist_m3u w) f (web_cmd w) (tool_oracle w)
    (cvlc_installed w) (m3u_writable w) (json_writable w) (tool_runs w)
    (procs w) (player w) (log w).

Definition set_tool_runs (r : list ToolCmd) (w : World) : World :=
  mkWorld (videos_dir w) (presentations_dir w) (slides_cache w)
    (playlist_json w) (playlist_m3u w) (signage_cmd w) (web_cmd w)
    (tool_oracle w) (cvlc_installed w) (m3u_writable w) (json_writable w) r
    (procs w) (player w) (log w).

Definition set_procs (ps : list ProcState) (w : World) : World :=
  mkWorld (videos_dir w) (presentations_dir w) (slides_cache w)
    (playlist_json w) (playlist_m3u w) (signage_cmd w) (web_cmd w)
    (tool_oracle w) (cvlc_installed w) (m3u_writable w) (json_writable w)
    (tool_runs w) ps (player w) (log w).

Definition set_player (st : PlayerState) (w : World) : World :=
  mkWorld (videos_dir w) (presentations_dir w) (slides_cache w)
    (playlist_json w) (playlist_m3u w) (signage_cmd w) (web_cmd w)
    (tool_oracle w) (cvlc_installed w) (m3u_writable w) (json_writable w)
    (tool_runs w) (procs w) st (log w).

Definition set_log (l : list LogEvent) (w : World) : World :=
  mkWorld (videos_dir w) (presentations_dir w) (slides_cache w)
    (playlist_json w) (playlist_m3u w) (signage_cmd w) (web_cmd w)
    (tool_oracle w) (cvlc_installed w) (m3u_writable w) (json_writable w)
    (tool_runs w) (procs w) (player w) l.

(** Python exceptions that the modelled code can meet. *)
Inductive Exn :=
| CalledProcessError
| TimeoutExpired
| FileNotFoundError
| TypeError
| AttributeError
| OSError.

Inductive Result (A : Type) :=
| Ok (a : A)
| Raised (e : Exn).
Arguments Ok {A} a.
Arguments Raised {A} e.

(** Computations that change the world and may raise; what was written
    before an exception stays written. *)
Definition M (A : Type) : Type := World -> Result A * World.

Definition ret {A} (a : A) : M A := fun w => (Ok a, w).

Definition raise {A} (e : Exn) : M A := fun w => (Raised e, w).

Definition bind {A B} (m : M A) (k : A -> M B) : M B :=
  fun w =>
    match m w with
    | (Ok a, w') => k a w'
    | (Raised e, w') => (Raised e, w')
    end.

(** [try: m except Exception: handler] *)
Definition try_except {A} (m : M A) (handler : Exn -> M A) : M A :=
  fun w =>
    match m w with
    | (Ok a, w') => (Ok a, w')
    | (Raised e, w') => handler e w'
    end.

Definition get_world : M World := fun w => (Ok w, w).

Definition modify (f : World -> World) : M unit := fun w => (Ok tt, f w).

Definition lift {A} (r : Result A) : M A := fun w => (r, w).

(** [logger.info/warning/error(...)] *)
Definition log_event (ev : LogEvent) : M unit :=
  modify (fun w => set_log (log w ++ [ev]) w).

End Env.

Declare Scope signage_scope.
Delimit Scope signage_scope with signage.
Notation "x <- m ;; k" := (Env.bind m (fun x => k))
  (at level 100, m at next level, right associativity) : signage_scope.
Notation "m ;;; k" := (Env.bind m (fun _ => k))
  (at level 100, right associativity) : signage_scope.

(** ** The conversion cache ([PresentationConverter]) *)

Module Converter.
Import Py Json Env.
Local Open Scope signage_scope.

Definition SLIDES_CACHE_DIR : string := "~/signage/cache/slides".
Definition PPT_FORMATS : list string := [".pptx"; ".ppt"].
Definition PDF_FORMATS : list string := [".pdf"].

(** The directory [cache_dir / stem], by its name below the cache
    root; a ["."] component is dropped when the path is built. *)
Definition cache_key (stem : string) : string :=
  if String.eqb stem "." then "" else stem.

Definition cache_path_str (key : string) : string :=
  if String.eqb key "" then SLIDES_CACHE_DIR
  else SLIDES_CACHE_DIR +:+ "/" +:+ key.

Definition get_cache_path (presentation_file : Path) : string :=
  cache_key (name_stem (fname presentation_file)).

(** The entries of a cache directory; none when it does not exist. *)
Definition cache_entries (w : World) (key : string) : gset string :=
  default ∅ (slides_cache w !! key).

(** [sorted(cache_path.glob("slide_*.png"))] *)
Definition sorted_slides (w : World) (key : string) : list string :=
  sorted (glob_slides (cache_entries w key)).

Definition is_cached (w : World) (presentation_file : Path) : bool :=
  match slides_cache w !! get_cache_path presentation_file with
  | None => false
  | Some dir => (0 <? length (glob_slides dir))%nat
  end.

(** [cache_path.mkdir(parents=True, exist_ok=True)] *)
Definition mkdir (key : string) : M unit :=
  modify (fun w =>
    match slides_cache w !! key with
    | Some _ => w
    | None => set_slides_cache (<[key := ∅]> (slides_cache w)) w
    end).

Definition write_outputs (key : string) (files : list string) (w : World)
    : World :=
  set_slides_cache
    (<[key := cache_entries w key ∪ list_to_set files]> (slides_cache w)) w.

Definition unlink (key : string) (file : string) : M unit :=
  modify (fun w =>
    set_slides_cache
      (<[key := cache_entries w key ∖ {[file]}]> (slides_cache w)) w).

(** [subprocess.run(cmd, check=True, timeout=...)]: the run is
    recorded, the files the tool wrote stay whatever its end, and any
    end but a zero exit status raises. *)
Definition run_tool (cmd : ToolCmd) : M unit :=
  fun w =>
    let r := tool_oracle w (length (tool_runs w)) cmd in
    let w1 := set_tool_runs (tool_runs w ++ [cmd]) w in
    match run_status r with
    | NotInstalled => (Raised FileNotFoundError, w1)
    | ExitOk => (Ok tt, write_outputs (cmd_outdir cmd) (run_outputs r) w1)
    | ExitNonZero =>
        (Raised CalledProcessError,
         write_outputs (cmd_outdir cmd) (run_outputs r) w1)
    | TimedOut =>
        (Raised TimeoutExpired,
         write_outputs (cmd_outdir cmd) (run_outputs r) w1)
    end.

Definition convert_pptx_to_pdf (pptx_file : Path) (output_dir : string)
    : M string :=
  run_tool (Libreoffice (path_str pptx_file) output_dir) ;;;
  w <- get_world ;;
  let generated_pdf := name_stem (fname pptx_file) +:+ ".pdf" in
  if bool_decide (generated_pdf ∈ cache_entries w output_dir)
  then ret generated_pdf
  else raise FileNotFoundError.

Definition convert_pdf_to_png (pdf_file : string) (output_dir : string)
    : M (list string) :=
  run_tool (ImageMagick pdf_file output_dir) ;;;
  w <- get_world ;;
  let png_files := sorted_slides w output_dir in
  match png_files with
  | [] => raise FileNotFoundError
  | _ => ret png_files
  end.

Definition convert_pptx (pptx_file : Path) : M (list string) :=
  let cache_path := get_cache_path pptx_file in
  mkdir cache_path ;;;
  log_event (LogConverting (fname pptx_file)) ;;;
  try_except
    (pdf_file <- convert_pptx_to_pdf pptx_file cache_path ;;
     png_files <- convert_pdf_to_png
                    (cache_path_str cache_path +:+ "/" +:+ pdf_file)
                    cache_path ;;
     unlink cache_path pdf_file ;;;
     log_event (LogConverted (fname pptx_file) (length png_files)) ;;;
     ret png_files)
    (fun _ => log_event (LogConvertFailed (fname pptx_file)) ;;; ret []).

Definition convert_pdf (pdf_file : Path) : M (list string) :=
  let cache_path := get_cache_path pdf_file in
  mkdir cache_path ;;;
  log_event (LogConverting (fname pdf_file)) ;;;
  try_except
    (png_files <- convert_pdf_to_png (path_str pdf_file) cache_path ;;
     log_event (LogConverted (fname pdf_file) (length png_files)) ;;;
     ret png_files)
    (fun _ => log_event (LogConvertFailed (fname pdf_file)) ;;; ret []).

Definition convert_presentation (presentation_file : Path)
    : M (list string) :=
  let ext := lower (name_suffix (fname presentation_file)) in
  if bool_decide (ext ∈ PPT_FORMATS) then convert_pptx presentation_file
  else if bool_decide (ext ∈ PDF_FORMATS) then convert_pdf presentation_file
  else (log_event (LogUnsupported ext) ;;; ret []).

Definition slide_path (key : string) (name : string) : Path :=
  mkPath (cache_path_str key) name.

Definition get_slides (presentation_file : Path) : M (list Path) :=
  w <- get_world ;;
  (if is_cached w presentation_file then ret []
   else convert_presentation presentation_file) ;;;
  w' <- get_world ;;
  let cache_path := get_cache_path presentation_file in
  ret (map (slide_path cache_path) (sorted_slides w' cache_path)).

End Converter.

(** ** The content resolver of the playback controller ([player.py]) *)

Module Player.
Import Py Json Ordering Env Converter.
Local Open Scope signage_scope.

Definition VIDEOS_DIR : string := "~/signage/content/videos".
Definition PRESENTATIONS_DIR : string := "~/signage/content/presentations".
Definition SLIDE_DURATION : Z := 10.
Definition VIDEO_FORMATS : list string :=
  [".mp4"; ".avi"; ".mov"; ".mkv"; ".webm"].

Inductive ItemType := Video | Slide.

(** [{'type': ..., 'path': ..., 'duration': ...}] *)
Record PlayerItem := mkItem {
  pi_type : ItemType;
  pi_path : Path;
  pi_duration : Z
}.

Definition video_item (p : Path) : PlayerItem := mkItem Video p (-1).
Definition slide_item (p : Path) : PlayerItem := mkItem Slide p SLIDE_DURATION.

Definition get_video_files (w : World) : list Path :=
  map (mkPath VIDEOS_DIR) (sorted (glob_formats (videos_dir w) VIDEO_FORMATS)).

Definition get_presentation_files (w : World) : list Path :=
  map (mkPath PRESENTATIONS_DIR)
    (sorted (glob_formats (presentations_dir w) (PPT_FORMATS ++ PDF_FORMATS))).

(** [{p.name: p for p in files}] *)
Definition name_map (files : list Path) : gmap string Path :=
  foldl (fun m p => <[fname p := p]> m) ∅ files.

(** [m[name]] guarded by [name in m], for a name taken from the
    ordering file: a list or a dictionary cannot be hashed, and no other
    value than a string equals a key. *)
Definition dict_find (m : gmap string Path) (name : json)
    : Result (option Path) :=
  match name with
  | JStr s => Ok (m !! s)
  | JArr _ | JObj _ => Raised TypeError
  | _ => Ok None
  end.

(** [for _ in range(n): l.append(x)] *)
Fixpoint append_n {A} (n : nat) (x : A) (l : list A) : list A :=
  match n with
  | O => l
  | S k => append_n k x (l ++ [x])
  end.

(** [for x in xs: l.append(x)] *)
Fixpoint append_each {A} (xs : list A) (l : list A) : list A :=
  match xs with
  | [] => l
  | x :: rest => append_each rest (l ++ [x])
  end.

(** [for _ in range(n): for x in xs: l.append(x)] *)
Fixpoint append_each_n {A} (n : nat) (xs : list A) (l : list A) : list A :=
  match n with
  | O => l
  | S k => append_each_n k xs (append_each xs l)
  end.

(** The body of [for entry in selected]. *)
Definition resolve_entry (video_map pres_map : gmap string Path)
    (entry : Entry) (playlist_items : list PlayerItem)
    : M (list PlayerItem) :=
  let name := e_name entry in
  let repeats := Z.to_nat (e_repeats entry) in
  if negb (truthy name) then ret playlist_items
  else
    v <- lift (dict_find video_map name) ;;
    match v with
    | Some video => ret (append_n repeats (video_item video) playlist_items)
    | None =>
        p <- lift (dict_find pres_map name) ;;
        match p with
        | Some presentation =>
            slides <- get_slides presentation ;;
            ret (append_each_n repeats (map slide_item slides)
                   playlist_items)
        | None => log_event (LogOrphan name) ;;; ret playlist_items
        end
    end.

Fixpoint resolve_selected (video_map pres_map : gmap string Path)
    (selected : list Entry) (playlist_items : list PlayerItem)
    : M (list PlayerItem) :=
  match selected with
  | [] => ret playlist_items
  | entry :: rest =>
      items <- resolve_entry video_map pres_map entry playlist_items ;;
      resolve_selected video_map pres_map rest items
  end.

(** The fallback loop [for presentation_file in presentation_files]. *)
Fixpoint all_presentations (files : list Path)
    (playlist_items : list PlayerItem) : M (list PlayerItem) :=
  match files with
  | [] => ret playlist_items
  | presentation_file :: rest =>
      slides <- get_slides presentation_file ;;
      all_presentations rest
        (append_each (map slide_item slides) playlist_items)
  end.

Definition build_playlist_items : M (list PlayerItem) :=
  w <- get_world ;;
  let selected := read_selected (playlist_json w) in
  let video_files := get_video_files w in
  let video_map := name_map video_files in
  let presentation_files := get_presentation_files w in
  let pres_map := name_map presentation_files in
  match selected with
  | _ :: _ => resolve_selected video_map pres_map selected []
  | [] =>
      all_presentations presentation_files
        (append_each (map video_item video_files) [])
  end.

(** The text of [playlist.m3u], line by line. *)
Definition m3u_lines (item : PlayerItem) : list string :=
  [ match pi_type item with
    | Video => "#EXTINF:-1," +:+ fname (pi_path item)
    | Slide => "#EXTINF:" +:+ str_of_int (pi_duration item) +:+ ","
               +:+ fname (pi_path item)
    end;
    path_str (pi_path item) ].

Definition m3u_text (items : list PlayerItem) : list string :=
  "#EXTM3U" :: flat_map m3u_lines items.

(** [create_playlist]: [open(PLAYLIST_FILE, 'w')] raises when the file
    cannot be written. *)
Definition create_playlist (items : list PlayerItem) : M unit :=
  w <- get_world ;;
  if m3u_writable w
  then modify (set_playlist_m3u (Some (m3u_text items)))
  else raise OSError.

End Player.

(** ** Pruning of the ordering by the dashboard ([dashboard.py]) *)

Module Dashboard.
Import Py Json Ordering Env.
Local Open Scope signage_scope.




(** [json.dumps] of a normalised entry, read back. *)
Definition entry_json (e : Entry) : json :=
  JObj [("name", e_name e); ("repeats", JInt (e_repeats e))].

(** [write_playlist]: [False] when the file cannot be written. *)
Definition write_playlist (lst : list Entry) : M bool :=
  w <- get_world ;;
  if json_writable w
  then modify (set_playlist_json (Holds (JArr (map entry_json lst)))) ;;;
       ret true
  else ret false.


End Dashboard.

(** ** The playback controller and its mailbox ([player.py]) *)

Module Controller.
Import Py Json Ordering Env Converter Player.
Local Open Scope signage_scope.

Definition proc_alive (w : World) (pid : nat) : bool :=
  match procs w !! pid with
  | Some (Running _) | Some (Suspended _) => true
  | _ => false
  end.

(** [self.vlc_process.poll() is None], after [if not self.vlc_process] *)
Definition is_vlc_running (w : World) : bool :=
  match vlc_process (player w) with
  | None => false
  | Some pid => proc_alive w pid
  end.

Definition set_vlc_process (v : option nat) (w : World) : World :=
  set_player (mkPlayer v (current_playlist_hash (player w))
                (pending_update (player w))) w.

(** [subprocess.Popen(cmd, ...)] on the playlist file; raises when the
    player is not installed. *)
Definition start_vlc : M unit :=
  w <- get_world ;;
  if cvlc_installed w
  then modify (fun w =>
         set_vlc_process (Some (length (procs w)))
           (set_procs (procs w ++ [Running (playlist_m3u w)]) w))
  else raise FileNotFoundError.

(** [terminate()], [wait(timeout=3)], and [kill()] if that times out. *)
Definition stop_vlc : M unit :=
  w <- get_world ;;
  match vlc_process (player w) with
  | Some pid =>
      if proc_alive w pid
      then modify (fun w =>
             set_vlc_process None (set_procs (<[pid := Exited]> (procs w)) w))
      else ret tt
  | None => ret tt
  end.

(** [os.kill(pid, signal.SIGSTOP)] and [os.kill(pid, signal.SIGCONT)] *)
Definition sigstop (pid : nat) : M unit :=
  modify (fun w =>
    match procs w !! pid with
    | Some (Running pl) => set_procs (<[pid := Suspended pl]> (procs w)) w
    | _ => w
    end).

Definition sigcont (pid : nat) : M unit :=
  modify (fun w =>
    match procs w !! pid with
    | Some (Suspended pl) => set_procs (<[pid := Running pl]> (procs w)) w
    | _ => w
    end).

(** [action == s] for a string constant [s] *)
Definition action_is (action : json) (s : string) : bool :=
  match action with
  | JStr a => String.eqb a s
  | _ => false
  end.

(** [first = items.pop(0); items.append(first)] *)
Definition rotate_next {A} (items : list A) : list A :=
  match items with
  | [] => []
  | first :: rest => rest ++ [first]
  end.

(** [last = items.pop(); items.insert(0, last)] *)
Definition rotate_prev {A} (items : list A) : list A :=
  match List.last (map Some items) None with
  | Some last => last :: removelast items
  | None => []
  end.

(** What [process_commands_if_any] does once the command is read and
    its file removed. *)
Definition apply_action (action : json) : M unit :=
  if action_is action "pause" then
    w <- get_world ;;
    match vlc_process (player w) with
    | Some pid =>
        if is_vlc_running w
        then sigstop pid ;;; log_event LogPaused
        else ret tt
    | None => ret tt
    end
  else if action_is action "play" then
    w <- get_world ;;
    match vlc_process (player w) with
    | Some pid =>
        if is_vlc_running w
        then sigcont pid ;;; log_event LogResumed
        else ret tt
    | None => ret tt
    end
  else if action_is action "next" || action_is action "prev" then
    items <- build_playlist_items ;;
    match items with
    | [] => ret tt
    | _ :: _ =>
        let rotated :=
          if action_is action "next" then rotate_next items
          else rotate_prev items in
        create_playlist rotated ;;;
        stop_vlc ;;;
        start_vlc ;;;
        log_event (LogApplied action)
    end
  else ret tt.

(** [data.get('action')]: only a dictionary has [get]. *)
Definition command_action (data : json) : Result json :=
  match data with
  | JObj fields => Ok (dict_get fields "action")
  | _ => Raised AttributeError
  end.

Definition process_commands_if_any : M unit :=
  try_except
    (w <- get_world ;;
     if negb (file_exists (signage_cmd w)) then ret tt
     else
       let data := match signage_cmd w with
                   | Holds value => value
                   | _ => JObj []
                   end in
       action <- lift (command_action data) ;;
       log_event (LogCommand action) ;;;
       modify (set_signage_cmd Absent) ;;;
       apply_action action)
    (fun _ => log_event LogCommandError).

End Controller.

(** ** Synchronised position ([web_player.py]) *)

Module Sync.
Local Open Scope Z_scope.

(** An entry of the web playlist: a dictionary with the keys [type],
    [url], [name] and, for images and for the items of
    [build_playlist_with_durations], [duration]. *)
Record WebItem := mkWebItem {
  wi_type : string;
  wi_url : string;
  wi_name : string;
  wi_duration : option Z
}.

(** [item.get('duration', 0)] *)
Definition duration_of (item : WebItem) : Z :=
  match wi_duration item with
  | Some d => d
  | None => 0
  end.

(** [sum(...)] adds from the left, starting at 0. *)
Definition py_sum (xs : list Z) : Z := fold_left Z.add xs 0.

Definition calculate_total_duration (playlist : list WebItem) : Z :=
  py_sum (map duration_of playlist).

(** The [for idx, item in enumerate(playlist)] loop of
    [get_current_item_index]: [idx] and [cumulative] are the loop
    variables; [None] when the loop runs to its end. *)
Fixpoint scan_items (items : list WebItem) (idx : nat) (cumulative : Z)
    (position_in_loop : Z) : option (nat * Z) :=
  match items with
  | [] => None
  | item :: rest =>
      if position_in_loop <? cumulative + duration_of item
      then Some (idx, position_in_loop - cumulative)
      else scan_items rest (S idx) (cumulative + duration_of item)
             position_in_loop
  end.

(** Python's [%] takes the sign of the divisor, as [Z.modulo] does. *)
Definition get_current_item_index (playlist : list WebItem)
    (elapsed_time : Z) : nat * Z :=
  let total_duration := calculate_total_duration playlist in
  if total_duration =? 0 then (0%nat, 0)
  else
    let position_in_loop := elapsed_time mod total_duration in
    match scan_items playlist 0 0 position_in_loop with
    | Some r => r
    | None => (0%nat, 0)
    end.

(** Cumulative bounds of the item at position [idx]: the durations of
    the items before it, and those up to and including it. *)
Definition cumulative_lower (playlist : list WebItem) (idx : nat) : Z :=
  py_sum (map duration_of (firstn idx playlist)).

Definition cumulative_upper (playlist : list WebItem) (idx : nat) : Z :=
  py_sum (map duration_of (firstn (S idx) playlist)).

(** [idx] is the first item whose cumulative upper bound exceeds [pos]. *)
Definition first_exceeding (playlist : list WebItem) (pos : Z)
    (idx : nat) : Prop :=
  (idx < length playlist)%nat /\
  pos < cumulative_upper playlist idx /\
  forall j, (j < idx)%nat -> cumulative_upper playlist j <= pos.

End Sync.

(** ** The content resolver of the stream server ([web_player.py]) *)

Module Web.
Import Py Json Ordering Env Converter Sync.

Definition VIDEOS_DIR : string := "~/signage/content/videos".
Definition SLIDE_DURATION : Z := 10.
Definition VIDEO_FORMATS : list string :=
  [".mp4"; ".avi"; ".mov"; ".mkv"; ".webm"].

Definition get_video_files (w : World) : list string :=
  sorted (glob_formats (videos_dir w) VIDEO_FORMATS).

Definition web_video (name : string) : WebItem :=
  mkWebItem "video" ("/content/videos/" +:+ name) name None.

(** [slide.relative_to(SLIDES_CACHE_DIR).as_posix()] *)
Definition slide_rel (key : string) (name : string) : string :=
  if String.eqb key "" then name else key +:+ "/" +:+ name.

Definition web_slide (key : string) (name : string) : WebItem :=
  mkWebItem "image" ("/content/slides/" +:+ slide_rel key name) name
    (Some SLIDE_DURATION).

(** The body of [for entry in selected]; [Path(name)] raises for a name
    that is no string, as does hashing a list or a dictionary. *)
Definition resolve_entry (w : World) (video_files : list string)
    (entry : Entry) (playlist : list WebItem) : Result (list WebItem) :=
  let name := e_name entry in
  let repeats := Z.to_nat (e_repeats entry) in
  if negb (truthy name) then Ok playlist
  else
    match name with
    | JStr s =>
        if bool_decide (s ∈ video_files)
        then Ok (Player.append_n repeats (web_video s) playlist)
        else
          let stem := cache_key (path_stem s) in
          match slides_cache w !! stem with
          | Some dir =>
              Ok (Player.append_each_n repeats
                    (map (web_slide stem) (sorted (glob_slides dir)))
                    playlist)
          | None => Ok playlist
          end
    | _ => Raised TypeError
    end.

Fixpoint resolve_selected (w : World) (video_files : list string)
    (selected : list Entry) (playlist : list WebItem)
    : Result (list WebItem) :=
  match selected with
  | [] => Ok playlist
  | entry :: rest =>
      match resolve_entry w video_files entry playlist with
      | Ok playlist' => resolve_selected w video_files rest playlist'
      | Raised e => Raised e
      end
  end.

(** [get_slide_files]: the slides of every directory of the cache, in
    the order of the directory names. *)
Definition get_slide_files (w : World) : list (string * string) :=
  flat_map
    (fun key => map (pair key) (sorted_slides w key))
    (sorted (filter (fun key => is_component key = true)
               (elements (dom (slides_cache w))))).

Definition get_playlist_uncached (w : World) : Result (list WebItem) :=
  let selected := read_selected (playlist_json w) in
  let video_files := get_video_files w in
  match selected with
  | _ :: _ => resolve_selected w video_files selected []
  | [] =>
      Ok (Player.append_each
            (map (fun '(key, name) => web_slide key name) (get_slide_files w))
            (Player.append_each (map web_video video_files) []))
  end.

(** [get_video_duration]: a fixed estimate. *)
Definition get_video_duration (video : string) : Z := 30.

Definition sync_video (name : string) : WebItem :=
  mkWebItem "video" ("/content/videos/" +:+ name) name
    (Some (get_video_duration name)).

Definition build_playlist_with_durations (w : World) : list WebItem :=
  Player.append_each
    (map (fun '(key, name) => web_slide key name) (get_slide_files w))
    (Player.append_each (map sync_video (get_video_files w)) []).

End Web.

(** ** The command relay of the stream server ([web_player.py]) *)

Module Relay.
Import Json Env.
Local Open Scope signage_scope.

(** [jsonify({'ok': True, 'command': ...})] *)
Record CommandResponse := mkResponse {
  resp_ok : bool;
  resp_command : option json
}.

Definition api_command : M CommandResponse :=
  w <- get_world ;;
  match web_cmd w with
  | Absent => ret (mkResponse true None)
  | Corrupt => ret (mkResponse true (Some (JObj [])))
  | Holds data => ret (mkResponse true (Some data))
  end.

(** [n] requests to [/api/command], one after the other. *)
Fixpoint poll_clients (n : nat) : M (list CommandResponse) :=
  match n with
  | O => ret []
  | S k =>
      r <- api_command ;;
      rs <- poll_clients k ;;
      ret (r :: rs)
  end.

End Relay.

(** ** Fingerprints of a content set *)

Module Fingerprint.
Import Py Json Env Sync Player.

Definition dquote : ascii := "034"%char.
Definition backslash : ascii := "092"%char.

(** The hexadecimal digit of a number below 16, in lower case. *)
Definition hex_digit (n : nat) : ascii :=
  if n <? 10 then ascii_of_nat (48 + n) else ascii_of_nat (87 + n).

(** One character of a JSON string, as [json.dumps] writes it with
    [ensure_ascii]: the quote and the backslash are escaped, the usual
    control characters have short escapes, and every other character
    outside the printable ASCII range becomes [\u00XX]. *)
Definition escape_char (c : ascii) : string :=
  let n := nat_of_ascii c in
  if n =? 34 then String backslash (String dquote "")
  else if n =? 92 then String backslash (String backslash "")
  else if n =? 10 then String backslash "n"
  else if n =? 13 then String backslash "r"
  else if n =? 9 then String backslash "t"
  else if n =? 8 then String backslash "b"
  else if n =? 12 then String backslash "f"
  else if (n <? 32) || (126 <? n)
  then String backslash
         (String "u" (String "0" (String "0"
            (String (hex_digit (n / 16))
               (String (hex_digit (n mod 16)) "")))))
  else String c "".

Fixpoint escape (s : string) : string :=
  match s with
  | EmptyString => EmptyString
  | String c rest => escape_char c +:+ escape rest
  end.

Definition dumps_str (s : string) : string :=
  String dquote (escape s +:+ String dquote "").

(** A key of a dictionary, with the separator that follows it. *)
Definition dumps_key (k : string) : string := dumps_str k +:+ ": ".

(** An item with [sort_keys=True]: [duration] (when the item has it),
    [name], [type], [url]. *)
Definition dumps_item (item : WebItem) : string :=
  "{" +:+
  match wi_duration item with
  | Some d => dumps_key "duration" +:+ str_of_int d +:+ ", "
  | None => ""
  end +:+
  dumps_key "name" +:+ dumps_str (wi_name item) +:+ ", " +:+
  dumps_key "type" +:+ dumps_str (wi_type item) +:+ ", " +:+
  dumps_key "url" +:+ dumps_str (wi_url item) +:+ "}".

Fixpoint dumps_tail (items : list WebItem) : string :=
  match items with
  | [] => "]"
  | item :: rest => ", " +:+ dumps_item item +:+ dumps_tail rest
  end.

(** [json.dumps(playlist, sort_keys=True)] *)
Definition json_dumps (playlist : list WebItem) : string :=
  match playlist with
  | [] => "[]"
  | item :: rest => "[" +:+ dumps_item item +:+ dumps_tail rest
  end.

Section Hashes.
(** The two hash functions are library code: the 32 hexadecimal digits
    of [hashlib.md5(text.encode()).hexdigest()], read as a number, and
    the built-in [hash] on a tuple of strings, which is a fixed function
    within one run of the interpreter. *)
Variable md5 : string -> Z.
Variable py_hash : list string -> Z.

(** [get_playlist_hash_from] of [web_player.py] *)
Definition get_playlist_hash_from (playlist : list WebItem) : Z :=
  md5 (json_dumps playlist).

(** [get_playlist_hash] of [player.py] *)
Definition get_playlist_hash (items : list PlayerItem) : Z :=
  py_hash (map (fun item => path_str (pi_path item)) items).

End Hashes.

End Fingerprint.

(** ** The main loop of the playback controller ([player.py]) *)

Module Loop.
Import Py Json Ordering Env Converter Player Controller.
Local Open Scope signage_scope.

Definition CHECK_INTERVAL : nat := 20.

Definition set_current_playlist_hash (h : option Z) (w : World) : World :=
  set_player (mkPlayer (vlc_process (player w)) h (pending_update (player w))) w.

Definition set_pending_update (b : bool) (w : World) : World :=
  set_player (mkPlayer (vlc_process (player w))
                (current_playlist_hash (player w)) b) w.

(** [for _ in range(n): self.process_commands_if_any(); time.sleep(1)] *)
Fixpoint poll_commands (n : nat) : M unit :=
  match n with
  | O => ret tt
  | S k => process_commands_if_any ;;; poll_commands k
  end.


Section Run.
Variable py_hash : list string -> Z.

(** [playlist_hash != self.current_playlist_hash], the latter being
    [None] until a playlist has been written. *)
Definition hash_changed (playlist_hash : Z) (w : World) : bool :=
  match current_playlist_hash (player w) with
  | Some h => negb (playlist_hash =? h)%Z
  | None => true
  end.

(** One pass of [while True] up to the polling loop; [false] stands for
    the [continue] taken when there is no content.  The messages of this
    loop are not among the log events kept. *)
Definition run_check : M bool :=
  playlist_items <- build_playlist_items ;;
  match playlist_items with
  | [] => stop_vlc ;;; ret false
  | _ :: _ =>
      let playlist_hash := Fingerprint.get_playlist_hash py_hash playlist_items in
      w <- get_world ;;
      (if hash_changed playlist_hash w then
         if negb (is_vlc_running w) then
           create_playlist playlist_items ;;;
           modify (set_current_playlist_hash (Some playlist_hash)) ;;;
           start_vlc ;;;
           modify (set_pending_update false)
         else if negb (pending_update (player w)) then
           modify (set_pending_update true)
         else ret tt
       else if negb (is_vlc_running w) then
         (if pending_update (player w) then
            create_playlist playlist_items ;;;
            modify (set_current_playlist_hash (Some playlist_hash)) ;;;
            modify (set_pending_update false)
          else ret tt) ;;;
         start_vlc
       else ret tt) ;;;
      ret true
  end.

(** One pass of [while True]: [except Exception] logs and sleeps. *)
Definition run_pass : M unit :=
  try_except
    (go <- run_check ;;
     if (go : bool) then poll_commands CHECK_INTERVAL else ret tt)
    (fun _ => ret tt).

(** [run], cut off after [passes] passes of its loop. *)
Fixpoint run (passes : nat) : M unit :=
  match passes with
  | O => ret tt
  | S k => run_pass ;;; run k
  end.

End Run.

End Loop.

(** ** Editing the ordering and sending commands ([dashboard.py]) *)

Module Editor.
Import Py Json Ordering Env Converter Dashboard.
Local Open Scope signage_scope.

(** [it.get('name') == filename] for a file name: only a string equals
    a string. *)
Definition name_is (filename : string) (it : Entry) : bool :=
  match e_name it with
  | JStr s => String.eqb s filename
  | _ => false
  end.

(** The answers of [toggle_playlist]: 200 with [in_playlist] and
    [filename], 400, and 500. *)
Inductive ToggleReply :=
| Toggled (in_playlist : bool) (filename : string)
| ToggleInvalid
| ToggleFailed.

Definition toggle_playlist (content_type filename : string) : M ToggleReply :=
  if negb (bool_decide (content_type ∈ ["video"; "presentation"]))
  then ret ToggleInvalid
  else
    w <- get_world ;;
    let raw := read_playlist (playlist_json w) in
    let items := normalize_playlist_to_objects raw in
    let found := existsb (name_is filename) items in
    let items' :=
      if found then filter (fun it => name_is filename it = false) items
      else items ++ [mkEntry (JStr filename) 1] in
    ok <- write_playlist items' ;;
    ret (if (ok : bool) then Toggled (negb found) filename else ToggleFailed).

(** [api_playlist_order_get]: the normalised ordering. *)
Definition api_playlist_order_get : M (list Entry) :=
  w <- get_world ;;
  ret (normalize_playlist_to_objects (read_playlist (playlist_json w))).

(** The loop of [api_playlist_order_post]: only the key [name] names
    an entry. *)
Fixpoint order_loop (data : list json) (normalized : list Entry)
    : list Entry :=
  match data with
  | [] => normalized
  | entry :: rest =>
      match entry with
      | JStr s => order_loop rest (normalized ++ [mkEntry (JStr s) 1])
      | JObj fields =>
          let name := dict_get fields "name" in
          if negb (truthy name) then order_loop rest normalized
          else order_loop rest
                 (normalized
                  ++ [mkEntry name (Z.max 1 (entry_repeats fields))])
      | _ => order_loop rest normalized
      end
  end.

(** The answers of [api_playlist_order_post]: 200 with the playlist
    saved, 400, and 500. *)
Inductive OrderReply :=
| OrderSaved (playlist : list Entry)
| OrderRejected
| OrderFailed.

(** [data] is what [request.get_json()] returned. *)
Definition api_playlist_order_post (data : json) : M OrderReply :=
  match data with
  | JArr entries =>
      let normalized := order_loop entries [] in
      ok <- write_playlist normalized ;;
      ret (if (ok : bool) then OrderSaved normalized else OrderFailed)
  | _ => ret OrderRejected
  end.

(** The loop of [playlist_names_set]; a list or a dictionary cannot be
    added to a set.  The set is kept as the sequence of the values
    added, which answers the membership tests made of it. *)
Fixpoint names_loop (raw : list json) (s : list json) : Result (list json) :=
  match raw with
  | [] => Ok s
  | item :: rest =>
      match item with
      | JStr x => names_loop rest (s ++ [JStr x])
      | JObj fields =>
          let n := entry_name fields in
          if truthy n then
            match n with
            | JArr _ | JObj _ => Raised TypeError
            | _ => names_loop rest (s ++ [n])
            end
          else names_loop rest s
      | _ => names_loop rest s
      end
  end.

Definition playlist_names_set (raw : json) : Result (list json) :=
  if negb (truthy raw) then Ok []
  else match raw with
       | JArr items => names_loop items []
       | _ => Ok []
       end.

(** [name in playlist_set] for a file name. *)
Definition in_names (name : string) (s : list json) : bool :=
  existsb (fun v => match v with
                    | JStr x => String.eqb x name
                    | _ => false
                    end) s.

Definition set_web_cmd (f : FileState) (w : World) : World :=
  mkWorld (videos_dir w) (presentations_dir w) (slides_cache w)
    (playlist_json w) (playlist_m3u w) (signage_cmd w) f (tool_oracle w)
    (cvlc_installed w) (m3u_writable w) (json_writable w) (tool_runs w)
    (procs w) (player w) (log w).

(** The messages flashed by [send_command]. *)
Inductive SendReply :=
| Sent (action target : string)
| InvalidCommand
| SendFailed.

(** [send_command]: [target] and [action] are the form fields, [ts] is
    the clock, and [writable] tells whether [write_text] succeeds.  The
    file then holds [{'action': action, 'ts': ts}]. *)
Definition send_command (target action : option string) (ts : Q)
    (writable : bool) : M SendReply :=
  match target, action with
  | Some t, Some a =>
      if bool_decide (t ∈ ["web"; "signage"])
         && bool_decide (a ∈ ["next"; "prev"; "pause"; "play"])
      then
        if writable then
          let command :=
            Holds (JObj [("action", JStr a); ("ts", JFloat (FFinite ts))]) in
          modify (if String.eqb t "web" then set_web_cmd command
                  else set_signage_cmd command) ;;;
          ret (Sent a t)
        else ret SendFailed
      else ret InvalidCommand
  | _, _ => ret InvalidCommand
  end.






(** [allowed_file]; the allowed extensions are a set, of which only
    membership is asked. *)
Definition ALLOWED_VIDEO_EXTENSIONS : list string :=
  [".mp4"; ".avi"; ".mov"; ".mkv"; ".webm"].
Definition ALLOWED_PPT_EXTENSIONS : list string := [".pptx"; ".ppt"; ".pdf"].

Definition allowed_file (filename : string) (allowed_extensions : list string)
    : bool :=
  bool_decide (lower (path_suffix filename) ∈ allowed_extensions).

Definition get_file_format (filepath : Path) : string :=
  let ext := lower (name_suffix (fname filepath)) in
  if String.eqb ext ".pdf" then "PDF"
  else if bool_decide (ext ∈ [".pptx"; ".ppt"]) then "PPTX"
  else if bool_decide (ext ∈ [".mp4"; ".avi"; ".mov"; ".mkv"; ".webm"])
  then "VIDEO"
  else "UNKNOWN".

End Editor.

(** ** Caching and client tracking of the stream server ([web_player.py]) *)

Module Stream.
Import Py Json Ordering Env Converter Sync Web Fingerprint.

Definition PLAYLIST_CACHE_TTL : float := 5%float.
Definition CLIENT_TTL_SECONDS : float := 60%float.

(** The dictionary [_playlist_cache]; clock readings and modification
    times are floats. *)
Record PlaylistCache := mkCache {
  pc_data : option (list WebItem);
  pc_hash : option Z;
  pc_timestamp : float;
  pc_playlist_mtime : float
}.

Definition empty_cache : PlaylistCache := mkCache None None 0%float 0%float.

Section Md5.
Variable md5 : string -> Z.

(** [get_playlist]: [now] is [time.time()] and [st_mtime] what
    [PLAYLIST_JSON.stat()] gives when the file exists. *)
Definition get_playlist (now st_mtime : float) (w : World) (c : PlaylistCache)
    : Result (option (list WebItem) * option Z) * PlaylistCache :=
  let pl_mtime :=
    if file_exists (playlist_json w) then st_mtime else 0%float in
  let expired :=
    match pc_data c with
    | None => true
    | Some _ => PrimFloat.ltb PLAYLIST_CACHE_TTL
                  (PrimFloat.sub now (pc_timestamp c))
    end in
  let changed := negb (PrimFloat.eqb pl_mtime (pc_playlist_mtime c)) in
  if expired || changed then
    match get_playlist_uncached w with
    | Ok playlist =>
        let playlist_hash := md5 (json_dumps playlist) in
        let c' := mkCache (Some playlist) (Some playlist_hash) now pl_mtime in
        (Ok (pc_data c', pc_hash c'), c')
    | Raised e => (Raised e, c)
    end
  else (Ok (pc_data c, pc_hash c), c).

End Md5.

(** [s.split(',')[0]] *)
Fixpoint before_comma (s : string) : string :=
  match s with
  | EmptyString => EmptyString
  | String c rest =>
      if Ascii.eqb c "," then EmptyString else String c (before_comma rest)
  end.

(** [s.strip()] *)
Definition str_strip (s : string) : string :=
  string_of_list_ascii (strip (list_ascii_of_string s)).

(** [get_client_ip]: [forwarded] is the header [X-Forwarded-For] and
    [remote_addr] the address of the peer, [None] when there is none. *)
Definition get_client_ip (forwarded remote_addr : option string) : string :=
  let nonempty (o : option string) :=
    match o with
    | Some s => negb (String.eqb s "")
    | None => false
    end in
  let chosen :=
    if nonempty forwarded then default "" forwarded
    else if nonempty remote_addr then default "" remote_addr
    else "" in
  str_strip (before_comma chosen).

(** Entries of [_client_last_seen] that are not older than [cutoff]. *)
Definition recent (cutoff : float) (seen : gmap string float)
    : gmap string float :=
  filter (fun kv => PrimFloat.ltb kv.2 cutoff = false) seen.

Definition track_client (forwarded remote_addr : option string) (now : float)
    (seen : gmap string float) : gmap string float :=
  let client_ip := get_client_ip forwarded remote_addr in
  if String.eqb client_ip "" then seen
  else
    let seen' := <[client_ip := now]> seen in
    if (200 <? size seen')%nat
    then recent (PrimFloat.sub now CLIENT_TTL_SECONDS) seen'
    else seen'.

(** [get_active_clients]: the count, and the table as it is left. *)
Definition get_active_clients (now : float) (seen : gmap string float)
    : nat * gmap string float :=
  let seen' := recent (PrimFloat.sub now CLIENT_TTL_SECONDS) seen in
  (size seen', seen').

End Stream.

(** ** Vocabulary of the specifications *)

Module Hoare.
Import Env.

(** [wp m w Q]: running [m] in the world [w] ends with a result and a
    world that satisfy [Q]. *)
Definition wp {A} (m : M A) (w : World) (Q : Result A -> World -> Prop)
    : Prop :=
  Q (m w).1 (m w).2.

(** Everything but the slide cache, the record of tool runs and the
    log is the same in [w] and [w']. *)
Definition same_content (w w' : World) : Prop :=
  videos_dir w' = videos_dir w /\ presentations_dir w' = presentations_dir w /\
  playlist_json w' = playlist_json w /\ playlist_m3u w' = playlist_m3u w /\
  signage_cmd w' = signage_cmd w /\ web_cmd w' = web_cmd w /\
  tool_oracle w' = tool_oracle w /\ cvlc_installed w' = cvlc_installed w /\
  m3u_writable w' = m3u_writable w /\ json_writable w' = json_writable w /\
  procs w' = procs w /\ player w' = player w.

(** How the world moves during conversions: [runs] are the tool runs
    and [events] the log messages added on the way from [w] to [w']. *)
Record moves (w w' : World) (runs : list ToolCmd) (events : list LogEvent)
    : Prop := mkMoves {
  mv_content : same_content w w';
  mv_runs : tool_runs w' = tool_runs w ++ runs;
  mv_log : log w' = log w ++ events
}.

End Hoare.

Module ConverterSpec.
Import Py Env Converter Hoare.

(** The files a tool run has written. *)
Definition tool_files (r : ToolRun) : gset string :=
  match run_status r with
  | NotInstalled => ∅
  | _ => list_to_set (run_outputs r)
  end.

(** A directory with at least one slide image. *)
Definition has_slides (entries : gset string) : bool :=
  (0 <? length (glob_slides entries))%nat.

Definition is_converting (ev : LogEvent) : bool :=
  match ev with LogConverting _ => true | _ => false end.

(** Number of starts of the conversion pipeline among [events]. *)
Fixpoint conversions (events : list LogEvent) : nat :=
  match events with
  | [] => 0
  | ev :: rest => (if is_converting ev then 1 else 0) + conversions rest
  end.

(** At most one conversion happened between [w] and [w']: at most one
    start of the pipeline and at most two tool runs. *)
Definition one_conversion (w w' : World) : Prop :=
  exists runs events,
    moves w w' runs events /\ conversions events <= 1 /\ length runs <= 2.

(** The slides of a document as the cache holds them. *)
Definition cached_slides (w : World) (f : Path) : list Path :=
  map (slide_path (get_cache_path f)) (sorted_slides w (get_cache_path f)).

End ConverterSpec.

Module ResolverSpec.
Import Py Json Ordering Env Converter Player Hoare ConverterSpec.



(** [w'] comes after [w] in a resolution pass: conversions may have
    happened in between. *)
Definition later (w w' : World) : Prop :=
  exists runs events, moves w w' runs events.






(** [(DIR / s).exists()] in one of the two content directories. *)
Definition on_disk (w : World) (s : string) : bool :=
  bool_decide (s ∈ videos_dir w) || bool_decide (s ∈ presentations_dir w).

(** Entries that the dashboard keeps, and entries that it prunes. *)
Definition kept (w : World) (e : Entry) : bool :=
  match e_name e with
  | JStr s => negb (String.eqb s "") && on_disk w s
  | _ => false
  end.


End ResolverSpec.

Module ControllerSpec.
Import Json Env.

(** The world once the command is read, logged and its file removed. *)
Definition consumed (action : json) (w : World) : World :=
  set_signage_cmd Absent (set_log (log w ++ [LogCommand action]) w).

(** The action named by what the mailbox holds. *)
Definition mailbox_action (f : FileState) : json :=
  match f with
  | Holds (JObj fields) => dict_get fields "action"
  | _ => JNull
  end.

End ControllerSpec.

Module FingerprintSpec.
Import Py Json Env Sync Player Fingerprint.

Definition hex_value (c : ascii) : option nat :=
  let n := nat_of_ascii c in
  if (48 <=? n) && (n <=? 57) then Some (n - 48)
  else if (97 <=? n) && (n <=? 102) then Some (n - 87)
  else None.

(** Reads one escaped character off the front of a JSON string body;
    [None] at the closing quote or at text that [escape] never
    writes. *)
Definition unescape_head (s : string) : option (ascii * string) :=
  match s with
  | EmptyString => None
  | String c rest =>
      if Ascii.eqb c dquote then None
      else if Ascii.eqb c backslash then
        match rest with
        | String k rest' =>
            if Ascii.eqb k dquote then Some (dquote, rest')
            else if Ascii.eqb k backslash then Some (backslash, rest')
            else if Ascii.eqb k "n" then Some ("010"%char, rest')
            else if Ascii.eqb k "r" then Some ("013"%char, rest')
            else if Ascii.eqb k "t" then Some ("009"%char, rest')
            else if Ascii.eqb k "b" then Some ("008"%char, rest')
            else if Ascii.eqb k "f" then Some ("012"%char, rest')
            else if Ascii.eqb k "u" then
              match rest' with
              | String "0" (String "0" (String h1 (String h2 rest''))) =>
                  match hex_value h1, hex_value h2 with
                  | Some a, Some b => Some (ascii_of_nat (16 * a + b), rest'')
                  | _, _ => None
                  end
              | _ => None
              end
            else None
        | EmptyString => None
        end
      else Some (c, rest)
  end.

(** [c] does not occur in [s]. *)
Fixpoint lacks (c : ascii) (s : string) : bool :=
  match s with
  | EmptyString => true
  | String a rest => negb (Ascii.eqb a c) && lacks c rest
  end.




(** Stand-ins for the two hash functions, to exercise the
    definitions: the length of the text, and the number of paths. *)
Definition toy_md5 (text : string) : Z := Z.of_nat (String.length text).
Definition toy_hash (paths : list string) : Z := Z.of_nat (length paths).

End FingerprintSpec.

Module CatalogSpec.
Import Py Json Ordering Env Converter Player Hoare ConverterSpec ResolverSpec.


(** The patterns that the globbing loop tries, in its order. *)
Definition suffixes (formats : list string) : list string :=
  flat_map (fun ext => [ext; upper ext]) formats.

(** Two suffixes can end the same name only if one ends the other. *)
Definition clash (e1 e2 : string) : bool :=
  endswith e2 e1 || endswith e1 e2.

Fixpoint clash_free (l : list string) : bool :=
  match l with
  | [] => true
  | e :: rest => forallb (fun e' => negb (clash e e')) rest && clash_free rest
  end.

(** [s] carries one of the extensions, all in lower or all in upper
    case. *)
Definition has_format (formats : list string) (s : string) : Prop :=
  exists ext, ext ∈ formats /\
    (endswith s ext = true \/ endswith s (upper ext) = true).

(** A name that cannot be a key of a dictionary: a non-empty list or
    dictionary. *)
Definition unhashable (v : json) : bool :=
  truthy v && match v with JArr _ | JObj _ => true | _ => false end.



End CatalogSpec.

Module LoopSpec.
Import Env Controller.

(** Every player process that is alive is the one the controller
    holds. *)
Definition single_player (w : World) : Prop :=
  forall pid, proc_alive w pid = true -> vlc_process (player w) = Some pid.

(** No player process is alive. *)
Definition no_player (w : World) : Prop :=
  forall pid, proc_alive w pid = false.

End LoopSpec.

Module EditorSpec.
Import Json Ordering Env Editor CatalogSpec.

(** Entries that a reader of the ordering file keeps. *)
Definition named (e : Entry) : Prop := truthy (e_name e) = true.

#[global] Instance named_dec e : Decision (named e) :=
  decide (truthy (e_name e) = true).

(** Entries not called [filename]. *)
Definition other_than (filename : string) (it : Entry) : Prop :=
  name_is filename it = false.

#[global] Instance other_than_dec filename it
    : Decision (other_than filename it) :=
  decide (name_is filename it = false).

(** What one entry of a posted array contributes. *)
Definition order_entry (entry : json) : list Entry := order_loop [entry] [].

(** An entry that a reader names by its legacy key [filename]. *)
Definition by_filename (entry : json) : Prop :=
  match entry with
  | JObj fields =>
      truthy (dict_get fields "name") = false /\
      truthy (dict_get fields "filename") = true
  | _ => False
  end.

(** How the loop of [playlist_names_set] ends, against the entries
    that normalisation yields. *)
Definition names_outcome (name : string) (s : list json)
    (entries : list Entry) (res : Result (list json)) : Prop :=
  match res with
  | Ok s' =>
      in_names name s' = in_names name s || existsb (name_is name) entries /\
      Forall (fun e => unhashable (e_name e) = false) entries
  | Raised exn =>
      exn = TypeError /\
      Exists (fun e => unhashable (e_name e) = true) entries
  end.

(** The command file as [send_command] writes it. *)
Definition command_file (action : string) (ts : Q) : FileState :=
  Holds (JObj [("action", JStr action); ("ts", JFloat (FFinite ts))]).

End EditorSpec.

Module StreamSpec.
Import Json Env Sync Fingerprint Stream.

(** The hash kept with a playlist is the hash of that playlist. *)
Definition coherent (md5 : string -> Z) (c : PlaylistCache) : Prop :=
  forall playlist, pc_data c = Some playlist ->
    pc_hash c = Some (get_playlist_hash_from md5 playlist).

(** The cache is younger than its time to live and the ordering file
    has the modification time recorded. *)
Definition fresh (now pl_mtime : float) (c : PlaylistCache) : Prop :=
  PrimFloat.ltb PLAYLIST_CACHE_TTL (PrimFloat.sub now (pc_timestamp c)) = false
  /\ PrimFloat.eqb pl_mtime (pc_playlist_mtime c) = true.

End StreamSpec.

(** ** Worlds used to exercise the definitions *)

Module Examples.
Import Py Json Env.

(** A world with the given content directories, ordering file and
    tool behaviour; nothing is cached and nothing runs. *)
Definition world_of (videos presentations : list string) (ordering : FileState)
    (oracle : nat -> ToolCmd -> ToolRun) : World :=
  mkWorld (list_to_set videos) (list_to_set presentations) ∅ ordering None
    Absent Absent oracle true true true [] [] (mkPlayer None None false) [].

(** The same world with the two mailboxes filled. *)
Definition with_commands (signage web : FileState) (w : World) : World :=
  mkWorld (videos_dir w) (presentations_dir w) (slides_cache w)
    (playlist_json w) (playlist_m3u w) signage web (tool_oracle w)
    (cvlc_installed w) (m3u_writable w) (json_writable w) (tool_runs w)
    (procs w) (player w) (log w).

(** A command as the dashboard writes it. *)
Definition command (action : string) : FileState :=
  Holds (JObj [("action", JStr action);
               ("ts", JFloat (FFinite (Qmake 1700000000 1)))]).

Definition talk_pptx : Path := mkPath Player.PRESENTATIONS_DIR "talk.pptx".


(** Every tool fails at once and writes nothing. *)
Definition always_fails : nat -> ToolCmd -> ToolRun :=
  fun _ _ => mkToolRun ExitNonZero [].

(** LibreOffice writes the PDF; ImageMagick writes two pages. *)
Definition converts_two_pages : nat -> ToolCmd -> ToolRun :=
  fun _ cmd =>
    match cmd with
    | Libreoffice _ _ => mkToolRun ExitOk ["talk.pdf"]
    | ImageMagick _ _ => mkToolRun ExitOk ["slide_000.png"; "slide_001.png"]
    end.


End Examples.

(* ================================================================== *)
(** * Part II: properties *)
(* ================================================================== *)

Module SyncFacts.
Import Sync.
Local Open Scope Z_scope.

Lemma fold_left_add_shift (xs : list Z) (a : Z) :
  fold_left Z.add xs a = a + fold_left Z.add xs 0.
Proof.
  revert a. induction xs as [|x xs IH]; intros a; simpl.
  - lia.
  - rewrite (IH (a + x)), (IH (0 + x)). lia.
Qed.

Lemma py_sum_cons (x : Z) (xs : list Z) : py_sum (x :: xs) = x + py_sum xs.
Proof. unfold py_sum. simpl. apply fold_left_add_shift. Qed.

Lemma cumulative_lower_0 pl : cumulative_lower pl 0 = 0.
Proof. reflexivity. Qed.

Lemma cumulative_upper_cons it pl j :
  cumulative_upper (it :: pl) (S j) = duration_of it + cumulative_upper pl j.
Proof. unfold cumulative_upper. cbn [firstn map]. now rewrite py_sum_cons. Qed.

Lemma cumulative_lower_cons it pl j :
  cumulative_lower (it :: pl) (S j) = duration_of it + cumulative_lower pl j.
Proof. unfold cumulative_lower. cbn [firstn map]. now rewrite py_sum_cons. Qed.

Lemma cumulative_upper_head it pl :
  cumulative_upper (it :: pl) 0 = duration_of it.
Proof.
  unfold cumulative_upper. cbn [firstn map]. rewrite py_sum_cons.
  unfold py_sum. simpl. lia.
Qed.

(** The loop, started in the middle of a playlist with [cumulative]
    already accumulated, finds the first item of the remainder whose
    upper bound (shifted by [cumulative]) exceeds the position. *)
Lemma scan_items_found items : forall idx cumulative pos k,
  first_exceeding items (pos - cumulative) k ->
  scan_items items idx cumulative pos =
    Some ((idx + k)%nat, pos - cumulative - cumulative_lower items k).
Proof.
  induction items as [|it rest IH]; intros idx c pos k (Hlen & Hup & Hbelow).
  - simpl in Hlen. lia.
  - simpl. destruct k as [|k].
    + rewrite cumulative_upper_head in Hup.
      destruct (Z.ltb_spec pos (c + duration_of it)); [|lia].
      rewrite cumulative_lower_0. do 2 f_equal; lia.
    + pose proof (Hbelow 0%nat ltac:(lia)) as H0.
      rewrite cumulative_upper_head in H0.
      destruct (Z.ltb_spec pos (c + duration_of it)); [lia|].
      rewrite (IH (S idx) (c + duration_of it) pos k).
      * rewrite cumulative_lower_cons. do 2 f_equal; lia.
      * repeat split.
        -- simpl in Hlen. lia.
        -- rewrite cumulative_upper_cons in Hup. lia.
        -- intros j Hj. specialize (Hbelow (S j) ltac:(lia)).
           rewrite cumulative_upper_cons in Hbelow. lia.
Qed.

Lemma scan_items_none items : forall idx cumulative pos,
  (forall j, (j < length items)%nat ->
     cumulative_upper items j <= pos - cumulative) ->
  scan_items items idx cumulative pos = None.
Proof.
  induction items as [|it rest IH]; intros idx c pos Hall; simpl; [easy|].
  pose proof (Hall 0%nat ltac:(simpl; lia)) as H0.
  rewrite cumulative_upper_head in H0.
  destruct (Z.ltb_spec pos (c + duration_of it)); [lia|].
  apply IH. intros j Hj. specialize (Hall (S j) ltac:(simpl; lia)).
  rewrite cumulative_upper_cons in Hall. lia.
Qed.

(** Either some item is the first one exceeding the position, or none
    exceeds it. *)
Lemma first_exceeding_dec items : forall pos,
  (exists k, first_exceeding items pos k) \/
  (forall j, (j < length items)%nat -> cumulative_upper items j <= pos).
Proof.
  induction items as [|it rest IH]; intros pos.
  - right. simpl. lia.
  - destruct (Z.lt_ge_cases pos (duration_of it)) as [Hlt|Hge].
    + left. exists 0%nat. repeat split; [simpl; lia| |lia].
      now rewrite cumulative_upper_head.
    + destruct (IH (pos - duration_of it)) as [[k (Hl & Hu & Hb)]|Hnone].
      * left. exists (S k). repeat split.
        -- simpl. lia.
        -- rewrite cumulative_upper_cons. lia.
        -- intros [|j] Hj.
           ++ rewrite cumulative_upper_head. lia.
           ++ rewrite cumulative_upper_cons.
              specialize (Hb j ltac:(lia)). lia.
      * right. intros [|j] Hj.
        -- rewrite cumulative_upper_head. lia.
        -- rewrite cumulative_upper_cons.
           specialize (Hnone j ltac:(simpl in Hj; lia)). lia.
Qed.

Lemma cumulative_upper_last pl :
  pl <> [] ->
  cumulative_upper pl (Nat.pred (length pl)) = calculate_total_duration pl.
Proof.
  intros Hne. unfold cumulative_upper, calculate_total_duration.
  destruct pl as [|it rest]; [congruence|].
  cbn [length Nat.pred]. now rewrite firstn_all2 by (simpl; lia).
Qed.

Lemma get_current_item_index_durations pl1 pl2 e :
  map duration_of pl1 = map duration_of pl2 ->
  get_current_item_index pl1 e = get_current_item_index pl2 e.
Proof.
  intros Heq. unfold get_current_item_index, calculate_total_duration.
  rewrite Heq.
  assert (Hscan : forall idx c pos,
    scan_items pl1 idx c pos = scan_items pl2 idx c pos).
  { clear e. revert pl2 Heq.
    induction pl1 as [|a l1 IH]; intros [|b l2] Heq idx c pos;
      simpl in *; try congruence.
    injection Heq as Hd Hrest. rewrite Hd.
    destruct (_ <? _); [reflexivity|]. now apply IH. }
  now rewrite Hscan.
Qed.

(** C1.  Synchronised position.  With durations [30, 10, 10] the
    elapsed times 5, 35, 49 and 125 give (0,5), (1,5), (2,9) and (0,25);
    a playlist of total duration 0 gives (0,0) for every elapsed time;
    and in general, with [pos = elapsed mod total], the result is
    [(idx, pos - lower idx)] for the first item [idx] whose cumulative
    upper bound exceeds [pos] - such an item exists whenever no duration
    is negative - and (0,0) only if no item's upper bound exceeds
    [pos]. *)
Theorem get_current_item_index_spec (playlist : list WebItem) :
  (map duration_of playlist = [30; 10; 10] ->
     get_current_item_index playlist 5 = (0%nat, 5) /\
     get_current_item_index playlist 35 = (1%nat, 5) /\
     get_current_item_index playlist 49 = (2%nat, 9) /\
     get_current_item_index playlist 125 = (0%nat, 25)) /\
  (forall elapsed, calculate_total_duration playlist = 0 ->
     get_current_item_index playlist elapsed = (0%nat, 0)) /\
  (forall elapsed, calculate_total_duration playlist <> 0 ->
     let pos := elapsed mod calculate_total_duration playlist in
     (forall idx, first_exceeding playlist pos idx ->
        get_current_item_index playlist elapsed =
          (idx, pos - cumulative_lower playlist idx)) /\
     (Forall (fun item => 0 <= duration_of item) playlist ->
        exists idx, first_exceeding playlist pos idx) /\
     ((forall idx, ~ first_exceeding playlist pos idx) ->
        get_current_item_index playlist elapsed = (0%nat, 0))).
Proof.
  split; [|split].
  - intros Hd.
    set (ref := [mkWebItem "" "" "" (Some 30); mkWebItem "" "" "" (Some 10);
                 mkWebItem "" "" "" (Some 10)]).
    assert (Href : map duration_of playlist = map duration_of ref)
      by (rewrite Hd; reflexivity).
    rewrite !(get_current_item_index_durations playlist ref _ Href).
    repeat split; reflexivity.
  - intros e Htot. unfold get_current_item_index. now rewrite Htot.
  - intros e Htot pos. split; [|split].
    + intros idx Hfirst. unfold get_current_item_index.
      destruct (Z.eqb_spec (calculate_total_duration playlist) 0) as [|_];
        [contradiction|].
      fold pos.
      rewrite (scan_items_found playlist 0 0 pos idx)
        by (now rewrite Z.sub_0_r).
      f_equal. lia.
    + intros Hnonneg.
      destruct (first_exceeding_dec playlist pos) as [Hex|Hnone]; [exact Hex|].
      exfalso.
      assert (Hne : playlist <> []).
      { intros ->. apply Htot. reflexivity. }
      assert (Hsum : 0 <= calculate_total_duration playlist).
      { clear -Hnonneg. unfold calculate_total_duration.
        induction Hnonneg as [|it l Hit _ IH]; [reflexivity|].
        cbn [map]. rewrite py_sum_cons. lia. }
      pose proof (Z.mod_pos_bound e (calculate_total_duration playlist)
                    ltac:(lia)) as Hpos.
      fold pos in Hpos.
      specialize (Hnone (Nat.pred (length playlist))).
      rewrite cumulative_upper_last in Hnone by assumption.
      destruct playlist; [congruence|]. simpl in Hnone. lia.
    + intros Hnone. unfold get_current_item_index.
      destruct (Z.eqb_spec (calculate_total_duration playlist) 0) as [|_];
        [contradiction|].
      fold pos.
      destruct (first_exceeding_dec playlist pos) as [[k Hk]|Hall].
      * exfalso. exact (Hnone k Hk).
      * rewrite scan_items_none; [reflexivity|].
        intros j Hj. rewrite Z.sub_0_r. now apply Hall.
Qed.

Lemma get_current_item_index_spec_witness :
  let playlist := [mkWebItem "video" "/content/videos/a.mp4" "a.mp4" (Some 30);
                   mkWebItem "image" "/content/slides/d/slide_000.png"
                     "slide_000.png" (Some 10);
                   mkWebItem "image" "/content/slides/d/slide_001.png"
                     "slide_001.png" (Some 10)] in
  get_current_item_index playlist 35 = (1%nat, 5) /\
  get_current_item_index [] 7 = (0%nat, 0) /\
  get_current_item_index playlist 125
  = (0%nat, 125 mod calculate_total_duration playlist
            - cumulative_lower playlist 0) /\
  exists idx,
    first_exceeding playlist (125 mod calculate_total_duration playlist) idx.
Proof.
  intros playlist.
  destruct (get_current_item_index_spec playlist) as (H1 & _ & H3).
  destruct (get_current_item_index_spec []) as (_ & H2 & _).
  assert (Htot : calculate_total_duration playlist <> 0)
    by (vm_compute; discriminate).
  destruct (H3 125 Htot) as (Hfirst & Hex & _).
  split; [|split; [|split]].
  - apply H1. reflexivity.
  - apply H2. reflexivity.
  - apply Hfirst. split; [|split].
    + vm_compute. lia.
    + vm_compute. reflexivity.
    + intros j Hj. lia.
  - apply Hex. repeat constructor; vm_compute; discriminate.
Defined.

End SyncFacts.

Module OrderingFacts.
Import Json Ordering.
Local Open Scope Z_scope.

(** The accumulator of the normalisation loop only grows at its end,
    by what each entry contributes on its own. *)
Lemma normalize_loop_acc (data : list json) : forall selected,
  normalize_loop data selected = selected ++ flat_map normalize_entry data.
Proof.
  induction data as [|entry rest IH]; intros selected.
  - simpl. now rewrite app_nil_r.
  - unfold normalize_entry.
    destruct entry as [| | | |s| |fields]; cbn [normalize_loop flat_map];
      try (rewrite IH; reflexivity).
    + rewrite IH. cbn [app]. now rewrite <- app_assoc.
    + destruct (truthy (entry_name fields)).
      * rewrite IH. cbn [app]. now rewrite <- app_assoc.
      * rewrite IH. reflexivity.
Qed.

Lemma normalize_entry_repeats (entry : json) :
  Forall (fun e => 1 <= e_repeats e) (normalize_entry entry).
Proof.
  unfold normalize_entry.
  destruct entry as [| | | |s| |fields]; cbn [normalize_loop app];
    try constructor; simpl; try lia; try constructor.
  destruct (truthy (entry_name fields)); repeat constructor.
  simpl. lia.
Qed.

Lemma normalize_loop_repeats (data : list json) :
  Forall (fun e => 1 <= e_repeats e) (normalize_loop data []).
Proof.
  rewrite normalize_loop_acc. cbn [app].
  induction data as [|entry rest IH]; [constructor|].
  cbn [flat_map]. apply Forall_app. split; [|exact IH].
  apply normalize_entry_repeats.
Qed.



End OrderingFacts.

Module ConverterFacts.
Import Py Json Env Converter Hoare ConverterSpec.
Local Open Scope signage_scope.

Section WpRules.
Context {A B : Type}.

Lemma wp_bind (m : M A) (k : A -> M B) w Q :
  wp m w (fun r w' => match r with
                      | Ok a => wp (k a) w' Q
                      | Raised e => Q (Raised e) w'
                      end) ->
  wp (bind m k) w Q.
Proof. unfold wp, bind. now destruct (m w) as [[a|e] w']. Qed.

Lemma wp_try (m : M A) (h : Exn -> M A) w Q :
  wp m w (fun r w' => match r with
                      | Ok a => Q (Ok a) w'
                      | Raised e => wp (h e) w' Q
                      end) ->
  wp (try_except m h) w Q.
Proof. unfold wp, try_except. now destruct (m w) as [[a|e] w']. Qed.

Lemma wp_conseq (m : M A) w (Q Q' : Result A -> World -> Prop) :
  wp m w Q -> (forall r w', Q r w' -> Q' r w') -> wp m w Q'.
Proof. unfold wp. auto. Qed.

Lemma wp_ret (a : A) w (Q : Result A -> World -> Prop) :
  Q (Ok a) w -> wp (ret a) w Q.
Proof. auto. Qed.

Lemma wp_raise e w (Q : Result A -> World -> Prop) :
  Q (Raised e) w -> wp (raise e) w Q.
Proof. auto. Qed.

Lemma wp_lift (r : Result A) w (Q : Result A -> World -> Prop) :
  Q r w -> wp (lift r) w Q.
Proof. auto. Qed.

End WpRules.

Lemma wp_get w (Q : Result World -> World -> Prop) :
  Q (Ok w) w -> wp get_world w Q.
Proof. auto. Qed.

Lemma wp_modify f w (Q : Result unit -> World -> Prop) :
  Q (Ok tt) (f w) -> wp (modify f) w Q.
Proof. auto. Qed.

Lemma wp_log ev w (Q : Result unit -> World -> Prop) :
  Q (Ok tt) (set_log (log w ++ [ev]) w) -> wp (log_event ev) w Q.
Proof. auto. Qed.

Lemma same_content_refl w : same_content w w.
Proof. unfold same_content. tauto. Qed.

Lemma same_content_trans w1 w2 w3 :
  same_content w1 w2 -> same_content w2 w3 -> same_content w1 w3.
Proof. unfold same_content. intuition congruence. Qed.

Lemma glob_slides_empty : glob_slides ∅ = [].
Proof. unfold glob_slides. now rewrite elements_empty. Qed.

Lemma is_cached_entries w f :
  is_cached w f = has_slides (cache_entries w (get_cache_path f)).
Proof.
  unfold is_cached, has_slides, cache_entries.
  destruct (slides_cache w !! get_cache_path f); [reflexivity|].
  simpl. now rewrite glob_slides_empty.
Qed.

Lemma sorted_nil_iff (l : list string) : sorted l = [] <-> l = [].
Proof.
  unfold sorted. split; intros H.
  - apply Permutation_nil_r. rewrite <- H. symmetry. apply merge_sort_Permutation.
  - now subst.
Qed.

Lemma has_slides_sorted entries :
  has_slides entries = false <-> sorted (glob_slides entries) = [].
Proof.
  unfold has_slides. rewrite sorted_nil_iff.
  destruct (glob_slides entries); cbn; split; intros; try reflexivity; discriminate.
Qed.

Lemma moves_refl w : moves w w [] [].
Proof. split; rewrite ?app_nil_r; auto using same_content_refl. Qed.

Lemma moves_trans w1 w2 w3 r1 r2 e1 e2 :
  moves w1 w2 r1 e1 -> moves w2 w3 r2 e2 -> moves w1 w3 (r1 ++ r2) (e1 ++ e2).
Proof.
  intros [c1 a1 l1] [c2 a2 l2]. split.
  - eauto using same_content_trans.
  - now rewrite a2, a1, app_assoc.
  - now rewrite l2, l1, app_assoc.
Qed.

Lemma moves_log w ev : moves w (set_log (log w ++ [ev]) w) [] [ev].
Proof. split; cbn; rewrite ?app_nil_r; auto. unfold same_content; cbn; tauto. Qed.

Lemma mkdir_spec key w :
  wp (mkdir key) w (fun r w' =>
    r = Ok tt /\ moves w w' [] [] /\
    forall k, cache_entries w' k = cache_entries w k).
Proof.
  apply wp_modify. split; [reflexivity|].
  destruct (slides_cache w !! key) eqn:E.
  - split; [apply moves_refl|reflexivity].
  - split.
    + split; cbn; rewrite ?app_nil_r; auto. unfold same_content; cbn; tauto.
    + intros k. unfold cache_entries. cbn.
      destruct (decide (key = k)) as [->|Hne].
      * now rewrite lookup_insert_eq, E.
      * now rewrite lookup_insert_ne.
Qed.

Lemma unlink_spec key file w :
  wp (unlink key file) w (fun r w' =>
    r = Ok tt /\ moves w w' [] [] /\
    cache_entries w' key = cache_entries w key ∖ {[file]}).
Proof.
  apply wp_modify. split; [reflexivity|]. split.
  - split; cbn; rewrite ?app_nil_r; auto. unfold same_content; cbn; tauto.
  - unfold cache_entries at 1. cbn. now rewrite lookup_insert_eq.
Qed.

(** What one run of a tool leaves behind. *)
Lemma run_tool_spec cmd w :
  let r := tool_oracle w (length (tool_runs w)) cmd in
  wp (run_tool cmd) w (fun res w' =>
    (res = Ok tt /\ run_status r = ExitOk \/
     (exists e, res = Raised e) /\ run_status r <> ExitOk) /\
    moves w w' [cmd] [] /\
    cache_entries w' (cmd_outdir cmd)
    = cache_entries w (cmd_outdir cmd) ∪ tool_files r).
Proof.
  cbv zeta. unfold wp, run_tool, tool_files.
  destruct (run_status _) eqn:E; cbn [fst snd]; split_and!;
    try (left; split; [reflexivity|congruence]);
    try (right; split; [eauto|congruence]);
    try (split; cbn; rewrite ?app_nil_r; auto; unfold same_content; cbn; tauto);
    try (unfold cache_entries at 1, write_outputs; cbn;
         now rewrite lookup_insert_eq).
  unfold cache_entries. cbn. now rewrite union_empty_r_L.
Qed.

Lemma convert_pdf_to_png_spec pdf k w :
  let cmd := ImageMagick pdf k in
  let r := tool_oracle w (length (tool_runs w)) cmd in
  let entries' := cache_entries w k ∪ tool_files r in
  wp (convert_pdf_to_png pdf k) w (fun res w' =>
    moves w w' [cmd] [] /\
    cache_entries w' k = entries' /\
    (run_status r = ExitOk /\ has_slides entries' = true /\
     res = Ok (sorted (glob_slides entries')) \/
     (run_status r <> ExitOk \/ has_slides entries' = false) /\
     exists e, res = Raised e)).
Proof.
  cbv zeta. unfold convert_pdf_to_png.
  apply wp_bind. eapply wp_conseq; [apply run_tool_spec|].
  cbv beta. intros res w' (Hres & Hmv & Hent). cbn [cmd_outdir] in Hent.
  destruct Hres as [(-> & Hs)|((e & ->) & Hs)].
  - apply wp_bind, wp_get. unfold sorted_slides. rewrite Hent.
    destruct (sorted _) eqn:Esort.
    + apply wp_raise. split_and!; auto. right. split; eauto.
      right. now apply has_slides_sorted.
    + apply wp_ret. split_and!; auto. left. split_and!; auto.
      destruct (has_slides _) eqn:Eh; [reflexivity|].
      apply has_slides_sorted in Eh. congruence.
  - split_and!; auto. right. eauto.
Qed.

(** The sorted slide list only depends on which slide images a
    directory holds. *)
Lemma sorted_perm (l1 l2 : list string) : l1 ≡ₚ l2 -> sorted l1 = sorted l2.
Proof.
  intros Hp. unfold sorted.
  apply (Sorted_unique String.le); try apply Sorted_merge_sort; try apply _.
  now rewrite !merge_sort_Permutation.
Qed.

Lemma elem_of_glob_slides x (entries : gset string) :
  x ∈ glob_slides entries <-> is_slide_png x = true /\ x ∈ entries.
Proof. unfold glob_slides. rewrite list_elem_of_filter, elem_of_elements. tauto. Qed.

Lemma NoDup_glob_slides (entries : gset string) : NoDup (glob_slides entries).
Proof. apply NoDup_filter, NoDup_elements. Qed.

Lemma sorted_slides_ext (e1 e2 : gset string) :
  (forall x, is_slide_png x = true -> x ∈ e1 <-> x ∈ e2) ->
  sorted (glob_slides e1) = sorted (glob_slides e2).
Proof.
  intros H. apply sorted_perm, NoDup_Permutation; try apply NoDup_glob_slides.
  intros x. rewrite !elem_of_glob_slides. specialize (H x). tauto.
Qed.

Lemma rev_app_append s t acc :
  String.rev_app (s +:+ t) acc = String.rev_app t (String.rev_app s acc).
Proof.
  revert acc. induction s as [|a s IH]; intros acc; [reflexivity|].
  exact (IH (String a acc)).
Qed.

Lemma pdf_not_slide stem : is_slide_png (stem +:+ ".pdf") = false.
Proof.
  unfold is_slide_png, endswith, String.rev.
  rewrite rev_app_append. cbn. now rewrite andb_false_r.
Qed.

Lemma moves_log_after w w' r e ev :
  moves w w' r e -> moves w (set_log (log w' ++ [ev]) w') r (e ++ [ev]).
Proof.
  intros H. pose proof (moves_trans _ _ _ _ _ _ _ H (moves_log w' ev)) as H'.
  now rewrite app_nil_r in H'.
Qed.

Lemma moves_oracle w w' r e : moves w w' r e -> tool_oracle w' = tool_oracle w.
Proof. intros [H _ _]. apply H. Qed.

Lemma convert_pdf_spec f w :
  let key := get_cache_path f in
  let cmd := ImageMagick (path_str f) key in
  let r := tool_oracle w (length (tool_runs w)) cmd in
  let entries' := cache_entries w key ∪ tool_files r in
  wp (convert_pdf f) w (fun res w' =>
    cache_entries w' key = entries' /\
    (run_status r = ExitOk /\ has_slides entries' = true /\
     res = Ok (sorted (glob_slides entries')) /\
     moves w w' [cmd]
       [LogConverting (fname f);
        LogConverted (fname f) (length (sorted (glob_slides entries')))] \/
     (run_status r <> ExitOk \/ has_slides entries' = false) /\
     res = Ok [] /\
     moves w w' [cmd] [LogConverting (fname f); LogConvertFailed (fname f)])).
Proof.
  cbv zeta. unfold convert_pdf. generalize (get_cache_path f) as key. intros key.
  apply wp_bind. eapply wp_conseq; [apply mkdir_spec|]. cbv beta.
  intros ? w0 (-> & Hm0 & He0).
  apply wp_bind, wp_log.
  apply (moves_log_after _ _ _ _ (LogConverting (fname f))) in Hm0.
  set (w1 := set_log _ w0) in *.
  assert (He1 : cache_entries w1 key = cache_entries w key) by apply He0.
  pose proof (moves_oracle _ _ _ _ Hm0) as Ho1.
  assert (Hr1 : tool_runs w1 = tool_runs w)
    by (rewrite (mv_runs _ _ _ _ Hm0); apply app_nil_r).
  clearbody w1. clear He0 w0.
  apply wp_try, wp_bind.
  eapply wp_conseq; [apply convert_pdf_to_png_spec|]. cbv beta.
  rewrite He1, Ho1, Hr1.
  intros res w2 (Hm2 & He2 & [(Hs & Hh & ->)|(Hfail & e & ->)]);
    pose proof (moves_trans _ _ _ _ _ _ _ Hm0 Hm2) as Hm; cbn [app] in Hm.
  - apply wp_bind, wp_log, wp_ret. split; [exact He2|]. left. split_and!; auto.
    exact (moves_log_after _ _ _ _ _ Hm).
  - apply wp_bind, wp_log, wp_ret. split; [exact He2|]. right. split_and!; auto.
    exact (moves_log_after _ _ _ _ _ Hm).
Qed.

Lemma convert_pptx_to_pdf_spec f k w :
  let cmd := Libreoffice (path_str f) k in
  let r := tool_oracle w (length (tool_runs w)) cmd in
  let entries' := cache_entries w k ∪ tool_files r in
  let pdf := name_stem (fname f) +:+ ".pdf" in
  wp (convert_pptx_to_pdf f k) w (fun res w' =>
    moves w w' [cmd] [] /\
    cache_entries w' k = entries' /\
    (run_status r = ExitOk /\ pdf ∈ entries' /\ res = Ok pdf \/
     (run_status r <> ExitOk \/ pdf ∉ entries') /\ exists e, res = Raised e)).
Proof.
  cbv zeta. unfold convert_pptx_to_pdf.
  apply wp_bind. eapply wp_conseq; [apply run_tool_spec|].
  cbv beta. intros res w' (Hres & Hmv & Hent). cbn [cmd_outdir] in Hent.
  destruct Hres as [(-> & Hs)|((e & ->) & Hs)].
  - apply wp_bind, wp_get. rewrite Hent.
    case_bool_decide as Hin.
    + apply wp_ret. split_and!; auto.
    + apply wp_raise. split_and!; auto. right. eauto.
  - split_and!; auto. right. eauto.
Qed.

(** The three ways a slide-deck conversion can go. *)
Lemma convert_pptx_spec f w :
  let key := get_cache_path f in
  let pdf := name_stem (fname f) +:+ ".pdf" in
  let cmd1 := Libreoffice (path_str f) key in
  let r1 := tool_oracle w (length (tool_runs w)) cmd1 in
  let entries1 := cache_entries w key ∪ tool_files r1 in
  let cmd2 := ImageMagick (cache_path_str key +:+ "/" +:+ pdf) key in
  let r2 := tool_oracle w (length (tool_runs w ++ [cmd1])) cmd2 in
  let entries2 := entries1 ∪ tool_files r2 in
  wp (convert_pptx f) w (fun res w' =>
    ((run_status r1 <> ExitOk \/ pdf ∉ entries1) /\
     res = Ok [] /\ cache_entries w' key = entries1 /\
     moves w w' [cmd1] [LogConverting (fname f); LogConvertFailed (fname f)]) \/
    (run_status r1 = ExitOk /\ pdf ∈ entries1 /\
     (run_status r2 <> ExitOk \/ has_slides entries2 = false) /\
     res = Ok [] /\ cache_entries w' key = entries2 /\
     moves w w' [cmd1; cmd2]
       [LogConverting (fname f); LogConvertFailed (fname f)]) \/
    (run_status r1 = ExitOk /\ pdf ∈ entries1 /\
     run_status r2 = ExitOk /\ has_slides entries2 = true /\
     res = Ok (sorted (glob_slides entries2)) /\
     cache_entries w' key = entries2 ∖ {[pdf]} /\
     moves w w' [cmd1; cmd2]
       [LogConverting (fname f);
        LogConverted (fname f) (length (sorted (glob_slides entries2)))])).
Proof.
  cbv zeta. unfold convert_pptx. generalize (get_cache_path f) as key. intros key.
  apply wp_bind. eapply wp_conseq; [apply mkdir_spec|]. cbv beta.
  intros ? w0 (-> & Hm0 & He0).
  apply wp_bind, wp_log.
  apply (moves_log_after _ _ _ _ (LogConverting (fname f))) in Hm0.
  set (w1 := set_log _ w0) in *.
  assert (He1 : cache_entries w1 key = cache_entries w key) by apply He0.
  pose proof (moves_oracle _ _ _ _ Hm0) as Ho1.
  assert (Hr1 : tool_runs w1 = tool_runs w)
    by (rewrite (mv_runs _ _ _ _ Hm0); apply app_nil_r).
  clearbody w1. clear He0 w0.
  apply wp_try, wp_bind.
  eapply wp_conseq; [apply convert_pptx_to_pdf_spec|]. cbv beta.
  rewrite He1, Ho1, Hr1.
  intros res w2 (Hm2 & He2 & [(Hs & Hin & ->)|(Hfail & e & ->)]);
    pose proof (moves_trans _ _ _ _ _ _ _ Hm0 Hm2) as Hm; cbn [app] in Hm.
  - apply wp_bind.
    eapply wp_conseq; [apply convert_pdf_to_png_spec|]. cbv beta.
    rewrite He2, (moves_oracle _ _ _ _ Hm), (mv_runs _ _ _ _ Hm).
    intros res w3 (Hm3 & He3 & [(Hs2 & Hh & ->)|(Hfail & e & ->)]);
      pose proof (moves_trans _ _ _ _ _ _ _ Hm Hm3) as Hm'; cbn [app] in Hm'.
    + apply wp_bind. eapply wp_conseq; [apply unlink_spec|]. cbv beta.
      intros ? w4 (-> & Hm4 & He4).
      pose proof (moves_trans _ _ _ _ _ _ _ Hm' Hm4) as Hm''.
      cbn [app] in Hm''. rewrite ?app_nil_r in Hm''.
      apply wp_bind, wp_log, wp_ret. right. right. split_and!; auto.
      * change (cache_entries (set_log ?l w4) key) with (cache_entries w4 key).
        now rewrite He4, He3.
      * exact (moves_log_after _ _ _ _ _ Hm'').
    + apply wp_bind, wp_log, wp_ret. right. left. split_and!; auto.
      exact (moves_log_after _ _ _ _ _ Hm').
  - apply wp_bind, wp_log, wp_ret. left. split_and!; auto.
    exact (moves_log_after _ _ _ _ _ Hm).
Qed.


Lemma convert_presentation_spec f w :
  wp (convert_presentation f) w (fun res w' =>
    (exists l, res = Ok l) /\ one_conversion w w').
Proof.
  unfold convert_presentation.
  case_bool_decide; [|case_bool_decide].
  - eapply wp_conseq; [apply convert_pptx_spec|]. cbv beta.
    intros res w' [(_ & -> & _ & Hm)|[(_ & _ & _ & -> & _ & Hm)|
                   (_ & _ & _ & _ & -> & _ & Hm)]];
      (split; [eauto|]); eexists _, _; (split; [exact Hm|]); cbn; lia.
  - eapply wp_conseq; [apply convert_pdf_spec|]. cbv beta.
    intros res w' (_ & [(_ & _ & -> & Hm)|(_ & -> & Hm)]);
      (split; [eauto|]); eexists _, _; (split; [exact Hm|]); cbn; lia.
  - apply wp_bind, wp_log, wp_ret. split; [eauto|].
    eexists _, _. split; [apply moves_log|]. cbn. lia.
Qed.

Lemma get_slides_cached f w :
  is_cached w f = true -> get_slides f w = (Ok (cached_slides w f), w).
Proof. intros H. unfold get_slides. cbv [bind get_world]. now rewrite H. Qed.

Lemma get_slides_spec f w :
  wp (get_slides f) w (fun res w' =>
    res = Ok (cached_slides w' f) /\
    (w' = w \/ is_cached w f = false /\ one_conversion w w')).
Proof.
  destruct (is_cached w f) eqn:Hc.
  - unfold wp. rewrite get_slides_cached by assumption. cbn. auto.
  - unfold get_slides. apply wp_bind, wp_get. rewrite Hc.
    apply wp_bind. eapply wp_conseq; [apply convert_presentation_spec|].
    cbv beta. intros res w' ((l & ->) & Hone).
    apply wp_bind, wp_get, wp_ret. auto.
Qed.







End ConverterFacts.

Module ResolverFacts.
Import Py Json Ordering Env Converter Player Dashboard.
Import Hoare ConverterSpec ConverterFacts ResolverSpec.
Local Open Scope signage_scope.


Lemma append_each_spec {A} (xs l : list A) : append_each xs l = l ++ xs.
Proof.
  revert l. induction xs as [|x xs IH]; intros l; cbn.
  - now rewrite app_nil_r.
  - rewrite IH. now rewrite <- app_assoc.
Qed.


Lemma later_refl w : later w w.
Proof. exists [], []. apply moves_refl. Qed.

Lemma later_trans w1 w2 w3 : later w1 w2 -> later w2 w3 -> later w1 w3.
Proof.
  intros (r1 & e1 & H1) (r2 & e2 & H2). eexists _, _.
  eapply moves_trans; eassumption.
Qed.


Lemma one_conversion_later w w' : one_conversion w w' -> later w w'.
Proof. intros (r & e & H & _). now exists r, e. Qed.







Lemma elem_of_sorted s (l : list string) : s ∈ sorted l <-> s ∈ l.
Proof. unfold sorted. now rewrite merge_sort_Permutation. Qed.











Lemma normalize_read_playlist f :
  normalize_playlist_to_objects (read_playlist f) = read_selected f.
Proof.
  destruct f as [| |value]; try reflexivity. cbn [read_playlist read_selected].
  unfold normalize_playlist_to_objects.
  destruct value as [|b|n|fl|s|data|fields]; try (now destruct (negb _)).
  now destruct data.
Qed.


Lemma read_selected_repeats f :
  Forall (fun e => (1 <= e_repeats e)%Z) (read_selected f).
Proof.
  destruct f as [| |[|b|n|fl|s|data|fields]]; try constructor.
  apply OrderingFacts.normalize_loop_repeats.
Qed.



Lemma filter_kept_idem w (l : list Entry) :
  filter (fun e => kept w e = true) (filter (fun e => kept w e = true) l)
  = filter (fun e => kept w e = true) l.
Proof.
  induction l as [|e l IH]; [reflexivity|].
  destruct (kept w e) eqn:Ek.
  - rewrite !filter_cons_True by exact Ek. now rewrite IH.
  - rewrite filter_cons_False by congruence. exact IH.
Qed.








End ResolverFacts.

Module ControllerFacts.
Import Py Json Ordering Env Converter Player Dashboard Controller.
Import Hoare ConverterSpec ConverterFacts ResolverSpec ResolverFacts ControllerSpec.
Local Open Scope signage_scope.

Lemma get_slides_later f w : wp (get_slides f) w (fun _ w' => later w w').
Proof.
  eapply wp_conseq; [apply get_slides_spec|]. cbv beta.
  intros res w' (_ & [->|(_ & H)]);
    [apply later_refl|now apply one_conversion_later].
Qed.

Lemma resolve_entry_later vm pm e acc w :
  wp (resolve_entry vm pm e acc) w (fun _ w' => later w w').
Proof.
  unfold resolve_entry. destruct (negb _); [apply wp_ret, later_refl|].
  apply wp_bind, wp_lift.
  destruct (dict_find vm (e_name e)) as [[video|]|exn];
    [apply wp_ret, later_refl| |apply later_refl].
  apply wp_bind, wp_lift.
  destruct (dict_find pm (e_name e)) as [[presentation|]|exn];
    [| |apply later_refl].
  - apply wp_bind. eapply wp_conseq; [apply get_slides_later|]. cbv beta.
    intros [slides|exn] w' Hl; [apply wp_ret|]; exact Hl.
  - apply wp_bind, wp_log, wp_ret. eexists _, _. apply moves_log.
Qed.

Lemma resolve_selected_later vm pm selected : forall acc w,
  wp (resolve_selected vm pm selected acc) w (fun _ w' => later w w').
Proof.
  induction selected as [|e rest IH]; intros acc w.
  - apply wp_ret, later_refl.
  - cbn [resolve_selected]. apply wp_bind.
    eapply wp_conseq; [apply resolve_entry_later|]. cbv beta.
    intros [items|exn] w1 Hl1; [|exact Hl1].
    eapply wp_conseq; [apply IH|]. cbv beta.
    intros res w2 Hl2. eauto using later_trans.
Qed.

Lemma all_presentations_later files : forall acc w,
  wp (all_presentations files acc) w (fun _ w' => later w w').
Proof.
  induction files as [|f rest IH]; intros acc w.
  - apply wp_ret, later_refl.
  - cbn [all_presentations]. apply wp_bind.
    eapply wp_conseq; [apply get_slides_later|]. cbv beta.
    intros [slides|exn] w1 Hl1; [|exact Hl1].
    eapply wp_conseq; [apply IH|]. cbv beta.
    intros res w2 Hl2. eauto using later_trans.
Qed.

(** A resolution pass only converts and logs. *)
Lemma build_playlist_items_later w :
  later w (build_playlist_items w).2.
Proof.
  unfold build_playlist_items. cbv [bind get_world].
  destruct (read_selected (playlist_json w)).
  - apply all_presentations_later.
  - apply resolve_selected_later.
Qed.



Lemma process_commands_run w :
  signage_cmd w = Corrupt \/ (exists fields, signage_cmd w = Holds (JObj fields)) ->
  process_commands_if_any w
  = try_except (apply_action (mailbox_action (signage_cmd w)))
      (fun _ => log_event LogCommandError)
      (consumed (mailbox_action (signage_cmd w)) w).
Proof.
  intros [Hc|(fields & Hc)]; unfold process_commands_if_any, try_except;
    unfold bind at 1; cbn [get_world]; rewrite Hc; cbn [file_exists negb];
    reflexivity.
Qed.

Lemma later_signage w w' : later w w' -> signage_cmd w' = signage_cmd w.
Proof. intros (r & e & H). apply H. Qed.

Lemma apply_action_signage action w :
  signage_cmd (apply_action action w).2 = signage_cmd w.
Proof.
  unfold apply_action.
  destruct (action_is action "pause").
  { cbv [bind get_world]. destruct (vlc_process (player w)) as [pid|];
      [|reflexivity].
    destruct (is_vlc_running w); [|reflexivity].
    cbv [sigstop modify log_event]. cbn [fst snd].
    now destruct (procs w !! pid) as [[]|]. }
  destruct (action_is action "play").
  { cbv [bind get_world]. destruct (vlc_process (player w)) as [pid|];
      [|reflexivity].
    destruct (is_vlc_running w); [|reflexivity].
    cbv [sigcont modify log_event]. cbn [fst snd].
    now destruct (procs w !! pid) as [[]|]. }
  destruct (_ || _); [|reflexivity].
  unfold bind at 1.
  pose proof (later_signage _ _ (build_playlist_items_later w)) as Hb.
  destruct (build_playlist_items w) as [[items|exn] w1]; cbn [fst snd] in *;
    [|exact Hb].
  destruct items as [|first rest]; [exact Hb|].
  rewrite <- Hb. generalize (if action_is action "next"
                             then rotate_next (first :: rest)
                             else rotate_prev (first :: rest)).
  intros rotated. clear.
  cbv [bind create_playlist get_world modify raise stop_vlc start_vlc log_event ret].
  destruct (m3u_writable w1); [|reflexivity]. cbn [fst snd].
  cbn [player set_playlist_m3u vlc_process].
  destruct (vlc_process (player w1)) as [pid|].
  - destruct (proc_alive _ pid); cbn [cvlc_installed set_playlist_m3u set_vlc_process set_procs set_player];
      destruct (cvlc_installed w1); reflexivity.
  - cbn [cvlc_installed set_playlist_m3u]. destruct (cvlc_installed w1); reflexivity.
Qed.

(** A mailbox file that parses to something else than a dictionary is
    outside C7: [data.get] raises before the file is removed, the error
    is logged and the file stays. *)
Lemma non_object_command_stays w value :
  signage_cmd w = Holds value ->
  (forall fields, value <> JObj fields) ->
  process_commands_if_any w
  = (Ok tt, set_log (log w ++ [LogCommandError]) w).
Proof.
  intros Hc Hno. unfold process_commands_if_any, try_except.
  unfold bind at 1. cbn [get_world]. rewrite Hc. cbn [file_exists negb].
  destruct value; try reflexivity. now contradiction (Hno fields).
Qed.







End ControllerFacts.

Module RelayFacts.
Import Json Env Relay.
Local Open Scope signage_scope.

Lemma api_command_run w :
  api_command w
  = (Ok (mkResponse true
           match web_cmd w with
           | Absent => None
           | Corrupt => Some (JObj [])
           | Holds data => Some data
           end), w).
Proof. unfold api_command. cbv [bind get_world]. now destruct (web_cmd w). Qed.

(** C8.  The relay only reads.  [api_command] returns what the
    mailbox of the web players holds and leaves the world - the mailbox
    file included - as it is, so that any number of polls, one after the
    other, all get the same answer. *)
Theorem api_command_read_only w n :
  (api_command w).2 = w /\
  (forall data, web_cmd w = Holds data ->
     (api_command w).1 = Ok (mkResponse true (Some data))) /\
  poll_clients n w
  = (Ok (replicate n (mkResponse true
           match web_cmd w with
           | Absent => None
           | Corrupt => Some (JObj [])
           | Holds data => Some data
           end)), w).
Proof.
  split_and!.
  - now rewrite api_command_run.
  - intros data H. now rewrite api_command_run, H.
  - induction n as [|n IH]; [reflexivity|].
    cbn [poll_clients]. unfold bind at 1. rewrite api_command_run.
    unfold bind at 1. rewrite IH. reflexivity.
Qed.

Lemma api_command_read_only_witness :
  let w := Examples.with_commands Absent (Examples.command "pause")
             (Examples.world_of [] [] Absent Examples.always_fails) in
  (api_command w).1
  = Ok (mkResponse true
          (Some (JObj [("action", JStr "pause");
                       ("ts", JFloat (FFinite (Qmake 1700000000 1)))]))).
Proof.
  cbv zeta.
  apply (api_command_read_only
           (Examples.with_commands Absent (Examples.command "pause")
              (Examples.world_of [] [] Absent Examples.always_fails)) 0).
  reflexivity.
Defined.

End RelayFacts.

Module FingerprintFacts.
Import Py Json Env Sync Player Fingerprint FingerprintSpec.

Lemma app_String c s t : String c s +:+ t = String c (s +:+ t).
Proof. reflexivity. Qed.




Lemma unescape_quote rest : unescape_head (String dquote rest) = None.
Proof. reflexivity. Qed.























End FingerprintFacts.

Module StringFacts.
Import Py.


Lemma app_nil_r_string (s : string) : s +:+ "" = s.
Proof.
  induction s as [|a s IH]; [reflexivity|].
  now rewrite FingerprintFacts.app_String, IH.
Qed.








End StringFacts.

Module CatalogFacts.
Import Py Json Ordering Env Converter Player Dashboard.
Import Hoare ConverterSpec ConverterFacts ResolverSpec ResolverFacts.
Import ControllerFacts CatalogSpec.
Local Open Scope signage_scope.




Lemma prefix_both a : forall b c,
  String.prefix a c = true -> String.prefix b c = true ->
  String.prefix a b = true \/ String.prefix b a = true.
Proof.
  induction a as [|x a IH]; intros b c Ha Hb.
  - left. now destruct b.
  - destruct b as [|y b]; [right; reflexivity|].
    destruct c as [|z c]; [discriminate|]. cbn in *.
    destruct (ascii_dec x z) as [->|]; [|discriminate].
    destruct (ascii_dec y z) as [->|]; [|discriminate].
    destruct (ascii_dec z z); [|congruence].
    eauto.
Qed.

Lemma endswith_clash n e1 e2 :
  endswith n e1 = true -> endswith n e2 = true -> clash e1 e2 = true.
Proof.
  unfold endswith, clash. intros H1 H2.
  destruct (prefix_both _ _ _ H1 H2) as [H|H]; unfold endswith; rewrite H;
    [reflexivity|apply orb_true_r].
Qed.

Lemma glob_formats_suffixes dir formats :
  glob_formats dir formats = flat_map (glob_suffix dir) (suffixes formats).
Proof.
  unfold glob_formats, suffixes.
  induction formats as [|ext rest IH]; [reflexivity|].
  cbn [flat_map app]. rewrite IH. now rewrite <- app_assoc.
Qed.

Lemma elem_of_glob_suffix s dir ext :
  s ∈ glob_suffix dir ext
  <-> s ∈ dir /\ is_component s = true /\ endswith s ext = true.
Proof.
  unfold glob_suffix. rewrite list_elem_of_filter, elem_of_elements.
  rewrite andb_true_iff. tauto.
Qed.

Lemma NoDup_glob_suffixes dir l :
  clash_free l = true -> NoDup (flat_map (glob_suffix dir) l).
Proof.
  induction l as [|e rest IH]; cbn [clash_free flat_map]; [constructor|].
  intros [Hhead Hrest]%andb_true_iff. apply NoDup_app. split_and!.
  - apply NoDup_filter, NoDup_elements.
  - intros s Hs Hin. apply elem_of_glob_suffix in Hs as (_ & _ & Hs).
    apply list_elem_of_In, in_flat_map in Hin as (e' & He' & Hin).
    apply list_elem_of_In, elem_of_glob_suffix in Hin as (_ & _ & Hs').
    rewrite forallb_forall in Hhead. specialize (Hhead e' He').
    rewrite (endswith_clash _ _ _ Hs Hs') in Hhead. discriminate.
  - auto.
Qed.

Lemma elem_of_glob_formats_iff s dir formats :
  s ∈ glob_formats dir formats
  <-> s ∈ dir /\ is_component s = true /\ has_format formats s.
Proof.
  unfold glob_formats, has_format. rewrite list_elem_of_In, in_flat_map. split.
  - intros (ext & Hext & Hin). apply list_elem_of_In, elem_of_app in Hin.
    rewrite !elem_of_glob_suffix in Hin.
    destruct Hin as [(? & ? & ?)|(? & ? & ?)]; split_and!; auto;
      exists ext; (split; [now apply list_elem_of_In|auto]).
  - intros (Hd & Hc & ext & Hext & He). exists ext.
    split; [now apply list_elem_of_In|].
    apply list_elem_of_In, elem_of_app. rewrite !elem_of_glob_suffix. tauto.
Qed.

Lemma NoDup_sorted (l : list string) : NoDup l -> NoDup (sorted l).
Proof. unfold sorted. now rewrite merge_sort_Permutation. Qed.

Lemma Sorted_sorted (l : list string) : Sorted String.le (sorted l).
Proof. apply Sorted_merge_sort. apply _. Qed.

Lemma listing_spec d dir formats :
  clash_free (suffixes formats) = true ->
  let files := map (mkPath d) (sorted (glob_formats dir formats)) in
  NoDup files /\
  Sorted String.le (map fname files) /\
  forall s, mkPath d s ∈ files
            <-> s ∈ dir /\ is_component s = true /\ has_format formats s.
Proof.
  intros Hfree. cbv zeta. split_and!.
  - apply NoDup_fmap_2; [intros a b [=]; assumption|].
    apply NoDup_sorted. rewrite glob_formats_suffixes.
    now apply NoDup_glob_suffixes.
  - rewrite map_map. cbn [fname]. rewrite map_id. apply Sorted_sorted.
  - intros s. rewrite <- elem_of_glob_formats_iff, <- elem_of_sorted.
    split.
    + intros (s' & [= ->] & Hin)%list_elem_of_fmap. exact Hin.
    + intros Hin. now apply list_elem_of_fmap_2.
Qed.

(** X2.  The content listings.  [get_video_files] and
    [get_presentation_files] list a file exactly when it is an entry of
    the directory and its name ends in one of the extensions, written
    all in lower or all in upper case; no file is listed twice, the
    lists are in the order of the names, and the stream server lists
    the same videos as the controller. *)
Theorem content_files_listed_once w :
  (NoDup (get_video_files w) /\
   Sorted String.le (map fname (get_video_files w)) /\
   forall s, mkPath VIDEOS_DIR s ∈ get_video_files w
             <-> s ∈ videos_dir w /\ is_component s = true
                 /\ has_format VIDEO_FORMATS s) /\
  (NoDup (get_presentation_files w) /\
   Sorted String.le (map fname (get_presentation_files w)) /\
   forall s, mkPath PRESENTATIONS_DIR s ∈ get_presentation_files w
             <-> s ∈ presentations_dir w /\ is_component s = true
                 /\ has_format (PPT_FORMATS ++ PDF_FORMATS) s) /\
  Web.get_video_files w = map fname (get_video_files w).
Proof.
  split; [|split].
  - apply (listing_spec VIDEOS_DIR (videos_dir w) VIDEO_FORMATS). reflexivity.
  - apply (listing_spec PRESENTATIONS_DIR (presentations_dir w)
             (PPT_FORMATS ++ PDF_FORMATS)). reflexivity.
  - unfold get_video_files, Web.get_video_files. rewrite map_map. cbn [fname].
    now rewrite map_id.
Qed.








End CatalogFacts.

Module CacheFacts.
Import Py Json Ordering Env Converter Player Loop.
Import Hoare ConverterSpec ConverterFacts ResolverSpec ResolverFacts StringFacts.
Local Open Scope signage_scope.

Lemma glob_slides_without_pdf entries stem :
  sorted (glob_slides (entries ∖ {[stem +:+ ".pdf"]}))
  = sorted (glob_slides entries).
Proof.
  apply sorted_slides_ext. intros x Hx. rewrite elem_of_difference.
  rewrite elem_of_singleton. split; [tauto|]. intros Hin. split; [exact Hin|].
  intros ->. rewrite pdf_not_slide in Hx. discriminate.
Qed.

(** X4.  A slide deck converted without failure.  When the document
    is not cached, LibreOffice ends normally and leaves the PDF, and
    ImageMagick ends normally and leaves at least one slide image,
    [get_slides] returns the slide images of the entry in the order of
    their names; the intermediate PDF is removed from the entry, the
    document is cached from then on, both tools have run once and the
    log tells the number of slides. *)
Theorem successful_deck_conversion f w :
  let key := get_cache_path f in
  let pdf := name_stem (fname f) +:+ ".pdf" in
  let cmd1 := Libreoffice (path_str f) key in
  let r1 := tool_oracle w (length (tool_runs w)) cmd1 in
  let cmd2 := ImageMagick (cache_path_str key +:+ "/" +:+ pdf) key in
  let r2 := tool_oracle w (length (tool_runs w ++ [cmd1])) cmd2 in
  let entries := (cache_entries w key ∪ tool_files r1) ∪ tool_files r2 in
  let slides := sorted (glob_slides entries) in
  lower (name_suffix (fname f)) ∈ PPT_FORMATS ->
  is_cached w f = false ->
  run_status r1 = ExitOk -> pdf ∈ cache_entries w key ∪ tool_files r1 ->
  run_status r2 = ExitOk -> has_slides entries = true ->
  let w' := (get_slides f w).2 in
  (get_slides f w).1 = Ok (map (slide_path key) slides) /\
  slides <> [] /\
  cache_entries w' key = entries ∖ {[pdf]} /\
  (pdf ∉ cache_entries w' key) /\
  is_cached w' f = true /\
  tool_runs w' = tool_runs w ++ [cmd1; cmd2] /\
  log w' = log w ++ [LogConverting (fname f);
                     LogConverted (fname f) (length slides)].
Proof.
  cbv zeta. intros Hext Hc Hs1 Hpdf Hs2 Hh.
  pose proof (convert_pptx_spec f w) as H. cbv zeta in H. unfold wp in H.
  unfold get_slides. cbv [bind get_world]. rewrite Hc.
  unfold convert_presentation. rewrite bool_decide_eq_true_2 by exact Hext.
  destruct (convert_pptx f w) as [r w1]. cbn [fst snd] in *.
  destruct H as [(Hf & _)|[(_ & _ & Hf & _)|(_ & _ & _ & _ & -> & He & Hm)]].
  - destruct Hf; [congruence|contradiction].
  - destruct Hf; congruence.
  - cbv [ret]. cbn [fst snd]. unfold sorted_slides.
    rewrite He, glob_slides_without_pdf.
    split_and!.
    + reflexivity.
    + intros Hnil. apply has_slides_sorted in Hnil. congruence.
    + reflexivity.
    + rewrite elem_of_difference, elem_of_singleton. tauto.
    + rewrite is_cached_entries, He.
      destruct (has_slides (_ ∖ _)) eqn:Eh; [reflexivity|].
      apply has_slides_sorted in Eh. rewrite glob_slides_without_pdf in Eh.
      apply has_slides_sorted in Eh. congruence.
    + apply Hm.
    + apply Hm.
Qed.

(** X5.  Documents of the same stem share one cache entry.  Whether
    a document is cached, and which slides it has, depends on the stem
    of its name only: once one of two such documents has slides, asking
    for the slides of the other converts nothing and returns the same
    slides. *)
Theorem same_stem_shares_slides f g w :
  name_stem (fname f) = name_stem (fname g) ->
  let first := get_slides f w in
  let second := get_slides g first.2 in
  is_cached w f = is_cached w g /\
  (is_cached w f = true -> get_slides g w = get_slides f w) /\
  (first.1 <> Ok [] -> second = first).
Proof.
  intros Hstem. cbv zeta.
  assert (Hkey : get_cache_path g = get_cache_path f)
    by (unfold get_cache_path; now rewrite Hstem).
  assert (Hc : forall w0, is_cached w0 g = is_cached w0 f)
    by (intros w0; unfold is_cached; now rewrite Hkey).
  assert (Hs : forall w0, cached_slides w0 g = cached_slides w0 f)
    by (intros w0; unfold cached_slides; now rewrite Hkey).
  split_and!.
  - now rewrite Hc.
  - intros H. rewrite !get_slides_cached by (rewrite ?Hc; exact H).
    now rewrite Hs.
  - intros Hne.
    pose proof (get_slides_spec f w) as H1. unfold wp in H1.
    destruct (get_slides f w) as [r1 w1]. cbn [fst snd] in *.
    destruct H1 as (-> & _).
    assert (Hc1 : is_cached w1 f = true).
    { rewrite is_cached_entries. unfold has_slides.
      unfold cached_slides, sorted_slides in Hne.
      destruct (glob_slides _) eqn:Eg; [|reflexivity].
      exfalso. apply Hne. reflexivity. }
    rewrite get_slides_cached by (rewrite Hc; exact Hc1).
    now rewrite Hs.
Qed.


Lemma successful_deck_conversion_witness :
  let w := Examples.world_of [] ["talk.pptx"] Absent
             Examples.converts_two_pages in
  (get_slides Examples.talk_pptx w).1
  = Ok (map (slide_path "talk") ["slide_000.png"; "slide_001.png"]) /\
  cache_entries (get_slides Examples.talk_pptx w).2 "talk"
  = {["slide_000.png"; "slide_001.png"]}.
Proof.
  cbv zeta.
  destruct (successful_deck_conversion Examples.talk_pptx
    (Examples.world_of [] ["talk.pptx"] Absent Examples.converts_two_pages))
    as (Hres & _ & Hent & _).
  - apply (bool_decide_unpack _). vm_compute. exact I.
  - reflexivity.
  - reflexivity.
  - apply (bool_decide_unpack _). vm_compute. exact I.
  - reflexivity.
  - vm_compute. reflexivity.
  - split.
    + etransitivity; [exact Hres|]. vm_compute. reflexivity.
    + etransitivity; [exact Hent|].
      apply (bool_decide_unpack _). vm_compute. exact I.
Defined.

Lemma same_stem_shares_slides_witness :
  let w := Examples.world_of [] ["talk.pptx"; "talk.pdf"] Absent
             Examples.converts_two_pages in
  let first := get_slides Examples.talk_pptx w in
  get_slides (mkPath Player.PRESENTATIONS_DIR "talk.pdf") first.2 = first.
Proof.
  cbv zeta.
  destruct (same_stem_shares_slides Examples.talk_pptx
    (mkPath Player.PRESENTATIONS_DIR "talk.pdf")
    (Examples.world_of [] ["talk.pptx"; "talk.pdf"] Absent
       Examples.converts_two_pages)) as (_ & _ & H).
  - reflexivity.
  - apply H. vm_compute. discriminate.
Defined.



End CacheFacts.

Module CommandFacts.
Import Py Json Ordering Env Converter Player Dashboard Controller.
Import Hoare ConverterSpec ConverterFacts ResolverSpec ResolverFacts.
Import ControllerSpec ControllerFacts.
Local Open Scope signage_scope.

Lemma object_command_run w fields :
  signage_cmd w = Holds (JObj fields) ->
  process_commands_if_any w
  = try_except (apply_action (dict_get fields "action"))
      (fun _ => log_event LogCommandError)
      (consumed (dict_get fields "action") w).
Proof.
  intros Hc. rewrite process_commands_run by eauto.
  unfold mailbox_action. now rewrite Hc.
Qed.

(** X8.  Pause and play.  With a player process running, the command
    [pause] suspends that process and changes nothing else of the
    controller: the process still counts as running, so that no pass of
    the main loop starts another one.  A command [play] sent afterwards
    resumes it: processes, controller and playlist file are as before
    the two commands, whose files are gone. *)
Theorem pause_then_play w fields fields' pid pl :
  signage_cmd w = Holds (JObj fields) ->
  dict_get fields "action" = JStr "pause" ->
  dict_get fields' "action" = JStr "play" ->
  vlc_process (player w) = Some pid ->
  procs w !! pid = Some (Running pl) ->
  let paused := (process_commands_if_any w).2 in
  let resumed :=
    (process_commands_if_any
       (set_signage_cmd (Holds (JObj fields')) paused)).2 in
  procs paused = <[pid := Suspended pl]> (procs w) /\
  is_vlc_running paused = true /\
  player paused = player w /\
  playlist_m3u paused = playlist_m3u w /\
  signage_cmd paused = Absent /\
  procs resumed = procs w /\
  player resumed = player w /\
  playlist_m3u resumed = playlist_m3u w /\
  signage_cmd resumed = Absent /\
  log resumed = log w ++ [LogCommand (JStr "pause"); LogPaused;
                          LogCommand (JStr "play"); LogResumed].
Proof.
  intros Hcmd Hpause Hplay Hpid Hproc. cbv zeta.
  assert (Hlt : pid < length (procs w))
    by (apply lookup_lt_is_Some; eauto).
  assert (Hp : process_commands_if_any w
    = (Ok tt, set_log (log w ++ [LogCommand (JStr "pause")] ++ [LogPaused])
                (set_procs (<[pid := Suspended pl]> (procs w))
                   (set_signage_cmd Absent w)))).
  { rewrite (object_command_run w fields Hcmd), Hpause.
    unfold try_except, apply_action. cbn [action_is String.eqb Ascii.eqb Bool.eqb].
    cbv [bind get_world]. cbn [consumed player set_signage_cmd set_log].
    rewrite Hpid. unfold is_vlc_running, proc_alive.
    cbn [consumed player procs set_signage_cmd set_log].
    rewrite Hpid. cbv beta iota. rewrite Hproc.
    cbv [sigstop modify log_event]. cbn [consumed procs set_signage_cmd set_log].
    rewrite Hproc. cbn. now rewrite <- app_assoc. }
  rewrite Hp. cbn [snd].
  set (paused := set_log _ _).
  assert (Hget : procs paused !! pid = Some (Suspended pl)).
  { subst paused. cbn. now apply list_lookup_insert_eq. }
  assert (Hr : process_commands_if_any
                 (set_signage_cmd (Holds (JObj fields')) paused)
    = (Ok tt, set_log (log paused ++ [LogCommand (JStr "play")] ++ [LogResumed])
                (set_procs (<[pid := Running pl]> (procs paused))
                   (set_signage_cmd Absent paused)))).
  { rewrite (object_command_run
               (set_signage_cmd (Holds (JObj fields')) paused) fields' eq_refl),
      Hplay.
    unfold try_except, apply_action. cbn [action_is String.eqb Ascii.eqb Bool.eqb].
    cbv [bind get_world]. cbn [consumed player set_signage_cmd set_log].
    change (player paused) with (player w). rewrite Hpid.
    unfold is_vlc_running, proc_alive.
    cbn [consumed player procs set_signage_cmd set_log].
    change (player paused) with (player w).
    rewrite Hpid. cbv beta iota. rewrite Hget.
    cbv [sigcont modify log_event]. cbn [consumed procs set_signage_cmd set_log].
    rewrite Hget. cbn. now rewrite <- app_assoc. }
  rewrite Hr. cbn [snd]. subst paused.
  split_and!; try reflexivity.
  - unfold is_vlc_running, proc_alive. cbn. rewrite Hpid.
    now rewrite list_lookup_insert_eq.
  - cbn. rewrite list_insert_insert_eq. now apply list_insert_id.
  - cbn. now rewrite <- !app_assoc.
Qed.

Lemma pause_then_play_witness :
  let w0 := Examples.with_commands (Examples.command "pause") Absent
              (Examples.world_of ["a.mp4"] [] Absent Examples.always_fails) in
  let w := set_player (mkPlayer (Some 0) None false)
             (set_procs [Running None] w0) in
  let paused := (process_commands_if_any w).2 in
  procs paused = [Suspended None] /\
  procs (process_commands_if_any
           (set_signage_cmd (Examples.command "play") paused)).2
  = [Running None].
Proof.
  cbv zeta.
  destruct (pause_then_play
    (set_player (mkPlayer (Some 0) None false)
       (set_procs [Running None]
          (Examples.with_commands (Examples.command "pause") Absent
             (Examples.world_of ["a.mp4"] [] Absent Examples.always_fails))))
    [("action", JStr "pause"); ("ts", JFloat (FFinite (Qmake 1700000000 1)))]
    [("action", JStr "play"); ("ts", JFloat (FFinite (Qmake 1700000000 1)))]
    0 None eq_refl eq_refl eq_refl eq_refl eq_refl)
    as (Hp & _ & _ & _ & _ & Hr & _).
  split; [exact Hp|exact Hr].
Defined.

(** X9.  Commands without effect.  A command whose action is none
    of [pause], [play], [next] and [prev] (or that names no action), and
    a [pause] or [play] while no player process is running, is logged
    and its file removed; nothing else changes. *)
Theorem ignored_commands w fields :
  signage_cmd w = Holds (JObj fields) ->
  let action := dict_get fields "action" in
  (forall s, action = JStr s -> s ∉ ["pause"; "play"; "next"; "prev"]) \/
  ((action = JStr "pause" \/ action = JStr "play") /\
   is_vlc_running w = false) ->
  process_commands_if_any w = (Ok tt, consumed action w).
Proof.
  intros Hcmd action Hcase. rewrite (object_command_run w fields Hcmd).
  fold action. unfold try_except.
  assert (Happly : apply_action action (consumed action w)
                   = (Ok tt, consumed action w)); [|now rewrite Happly].
  unfold apply_action. destruct Hcase as [Hother|(Hpp & Hrun)].
  - assert (Hno : forall s, s ∈ ["pause"; "play"; "next"; "prev"] ->
                            action_is action s = false).
    { intros s Hs. unfold action_is. destruct action as [| | | |a| |]; auto.
      apply String.eqb_neq. intros ->. now apply (Hother s). }
    rewrite !Hno by (repeat (try (left; fail); right); left).
    reflexivity.
  - assert (Hrun' : is_vlc_running (consumed action w) = false) by exact Hrun.
    destruct Hpp as [-> | ->]; cbn [action_is String.eqb Ascii.eqb Bool.eqb];
      cbv [bind get_world]; rewrite Hrun';
      now destruct (vlc_process (player (consumed _ w))).
Qed.

Lemma ignored_commands_witness :
  let w := Examples.with_commands (Examples.command "stop") Absent
             (Examples.world_of ["a.mp4"] [] Absent Examples.always_fails) in
  process_commands_if_any w = (Ok tt, consumed (JStr "stop") w).
Proof.
  cbv zeta.
  apply (ignored_commands
    (Examples.with_commands (Examples.command "stop") Absent
       (Examples.world_of ["a.mp4"] [] Absent Examples.always_fails))
    [("action", JStr "stop"); ("ts", JFloat (FFinite (Qmake 1700000000 1)))]
    eq_refl).
  left. intros s [= <-]. rewrite !elem_of_cons, elem_of_nil.
  intros [H|[H|[H|[H|[]]]]]; discriminate.
Defined.

End CommandFacts.

Module LoopFacts.
Import Py Json Ordering Env Converter Player Dashboard Controller Loop.
Import Hoare ConverterSpec ConverterFacts ResolverSpec ResolverFacts.
Import ControllerSpec ControllerFacts LoopSpec.
Local Open Scope signage_scope.

Lemma later_controller w w' :
  later w w' ->
  procs w' = procs w /\ player w' = player w /\
  playlist_m3u w' = playlist_m3u w /\ signage_cmd w' = signage_cmd w /\
  m3u_writable w' = m3u_writable w /\ cvlc_installed w' = cvlc_installed w.
Proof.
  intros (runs & events & [Hs _ _]). unfold same_content in Hs. tauto.
Qed.

Lemma later_running w w' : later w w' -> is_vlc_running w' = is_vlc_running w.
Proof.
  intros H. apply later_controller in H as (Hp & Hpl & _).
  unfold is_vlc_running, proc_alive. now rewrite Hp, Hpl.
Qed.

Lemma build_controller w items w1 :
  build_playlist_items w = (Ok items, w1) ->
  procs w1 = procs w /\ player w1 = player w /\
  playlist_m3u w1 = playlist_m3u w /\ signage_cmd w1 = signage_cmd w /\
  m3u_writable w1 = m3u_writable w /\ cvlc_installed w1 = cvlc_installed w /\
  is_vlc_running w1 = is_vlc_running w.
Proof.
  intros Hb. pose proof (build_playlist_items_later w) as Hl.
  rewrite Hb in Hl. cbn [snd] in Hl.
  pose proof (later_running _ _ Hl). apply later_controller in Hl. tauto.
Qed.

Lemma run_check_content py_hash w items w1 :
  build_playlist_items w = (Ok items, w1) -> items <> [] ->
  let playlist_hash := Fingerprint.get_playlist_hash py_hash items in
  run_check py_hash w
  = (((if hash_changed playlist_hash w1 then
         if negb (is_vlc_running w1) then
           create_playlist items ;;;
           modify (set_current_playlist_hash (Some playlist_hash)) ;;;
           start_vlc ;;;
           modify (set_pending_update false)
         else if negb (pending_update (player w1)) then
           modify (set_pending_update true)
         else ret tt
       else if negb (is_vlc_running w1) then
         (if pending_update (player w1) then
            create_playlist items ;;;
            modify (set_current_playlist_hash (Some playlist_hash)) ;;;
            modify (set_pending_update false)
          else ret tt) ;;;
         start_vlc
       else ret tt) ;;;
      ret true) w1).
Proof.
  intros Hb Hne. cbv zeta. unfold run_check. unfold bind at 1. rewrite Hb.
  destruct items as [|first rest]; [congruence|]. reflexivity.
Qed.

(** X10.  A content change does not interrupt the player.  While the
    player process is running and there is content, the check of the
    main loop leaves the processes, the playlist file and the recorded
    hash as they are; it only sets [pending_update] when the hash of
    the catalog differs from the recorded one. *)
Theorem playback_not_interrupted py_hash w items w1 :
  build_playlist_items w = (Ok items, w1) -> items <> [] ->
  is_vlc_running w = true ->
  let playlist_hash := Fingerprint.get_playlist_hash py_hash items in
  let w' := (run_check py_hash w).2 in
  (run_check py_hash w).1 = Ok true /\
  procs w' = procs w /\
  playlist_m3u w' = playlist_m3u w /\
  vlc_process (player w') = vlc_process (player w) /\
  current_playlist_hash (player w') = current_playlist_hash (player w) /\
  pending_update (player w')
  = pending_update (player w) || hash_changed playlist_hash w.
Proof.
  intros Hb Hne Hrun. cbv zeta.
  destruct (build_controller _ _ _ Hb) as (Hp & Hpl & Hm & _ & _ & _ & Hr).
  rewrite Hrun in Hr.
  assert (Hh : forall h, hash_changed h w1 = hash_changed h w)
    by (intros h; unfold hash_changed; now rewrite Hpl).
  rewrite (run_check_content py_hash w items w1 Hb Hne). cbv zeta.
  rewrite Hh, Hr, Hpl. cbn [negb].
  destruct (hash_changed _ w) eqn:Ec.
  - destruct (pending_update (player w)) eqn:Epend; cbn [negb];
      cbv [bind modify ret]; cbn; rewrite ?Hp, ?Hm, ?Hpl, ?Epend;
      split_and!; reflexivity.
  - cbv [bind ret]. cbn. rewrite ?Hp, ?Hm, ?Hpl, ?orb_false_r.
    split_and!; reflexivity.
Qed.




Lemma playback_not_interrupted_witness :
  let w0 := Examples.world_of ["a.mp4"] [] Absent Examples.always_fails in
  let w := set_player (mkPlayer (Some 0) None false)
             (set_procs [Running None] w0) in
  procs (run_check FingerprintSpec.toy_hash w).2 = [Running None] /\
  pending_update (player (run_check FingerprintSpec.toy_hash w).2) = true.
Proof.
  cbv zeta.
  destruct (playback_not_interrupted FingerprintSpec.toy_hash
    (set_player (mkPlayer (Some 0) None false)
       (set_procs [Running None]
          (Examples.world_of ["a.mp4"] [] Absent Examples.always_fails)))
    [video_item (mkPath VIDEOS_DIR "a.mp4")]
    (build_playlist_items
       (set_player (mkPlayer (Some 0) None false)
          (set_procs [Running None]
             (Examples.world_of ["a.mp4"] [] Absent
                Examples.always_fails)))).2)
    as (_ & Hp & _ & _ & _ & Hpend).
  - vm_compute. reflexivity.
  - discriminate.
  - reflexivity.
  - split; [exact Hp|exact Hpend].
Defined.


(** X12.  No content.  When the catalog is empty, the pass stops the
    player process and ends there: the playlist file, the recorded hash
    and [pending_update] stay, and the command file is not polled. *)
Theorem no_content_stops_player py_hash w w1 :
  build_playlist_items w = (Ok [], w1) ->
  let w' := (run_pass py_hash w).2 in
  (run_check py_hash w).1 = Ok false /\
  w' = (run_check py_hash w).2 /\
  is_vlc_running w' = false /\
  (forall pid, vlc_process (player w) = Some pid -> proc_alive w pid = true ->
     procs w' !! pid = Some Exited) /\
  playlist_m3u w' = playlist_m3u w /\
  current_playlist_hash (player w') = current_playlist_hash (player w) /\
  pending_update (player w') = pending_update (player w) /\
  signage_cmd w' = signage_cmd w.
Proof.
  intros Hb. cbv zeta.
  destruct (build_controller _ _ _ Hb) as (Hp & Hpl & Hm & Hs & _ & _ & Hr).
  assert (Hstop : stop_vlc w1 = (Ok tt, (stop_vlc w1).2)).
  { unfold stop_vlc. cbv [bind get_world].
    destruct (vlc_process (player w1)); [|reflexivity].
    now destruct (proc_alive w1 _). }
  assert (Hrc : run_check py_hash w = (Ok false, (stop_vlc w1).2)).
  { unfold run_check. unfold bind at 1. rewrite Hb.
    unfold bind. now rewrite Hstop. }
  assert (Hrp : run_pass py_hash w = (Ok tt, (stop_vlc w1).2)).
  { unfold run_pass, try_except. unfold bind. now rewrite Hrc. }
  rewrite Hrp, Hrc. cbn [fst snd]. clear Hrp Hrc Hstop.
  unfold stop_vlc. cbv [bind get_world modify ret]. rewrite Hpl.
  destruct (vlc_process (player w)) as [pid|] eqn:Epid.
  - assert (Ha : proc_alive w1 pid = proc_alive w pid)
      by (unfold proc_alive; now rewrite Hp).
    rewrite Ha. destruct (proc_alive w pid) eqn:Ealive; cbn.
    + rewrite ?Hp, ?Hm, ?Hs, ?Hpl. split_and!; try reflexivity.
      intros pid' [= <-] _. apply list_lookup_insert_eq.
      unfold proc_alive in Ealive. apply lookup_lt_is_Some.
      destruct (procs w !! pid); [eauto|discriminate].
    + rewrite ?Hm, ?Hs, ?Hpl, ?Epid. split_and!; try reflexivity.
      * unfold is_vlc_running. now rewrite Hpl, Epid, Ha.
      * intros pid' [= <-]. congruence.
  - cbn. rewrite ?Hm, ?Hs, ?Hpl, ?Epid. split_and!; try reflexivity.
    + unfold is_vlc_running. now rewrite Hpl, Epid.
    + discriminate.
Qed.

Lemma no_content_stops_player_witness :
  let w0 := Examples.world_of [] [] Absent Examples.always_fails in
  let w := Examples.with_commands (Examples.command "pause") Absent
             (set_player (mkPlayer (Some 0) None false)
                (set_procs [Running None] w0)) in
  procs (run_pass FingerprintSpec.toy_hash w).2 !! 0 = Some Exited /\
  signage_cmd (run_pass FingerprintSpec.toy_hash w).2 = Examples.command "pause".
Proof.
  cbv zeta.
  destruct (no_content_stops_player FingerprintSpec.toy_hash
    (Examples.with_commands (Examples.command "pause") Absent
       (set_player (mkPlayer (Some 0) None false)
          (set_procs [Running None]
             (Examples.world_of [] [] Absent Examples.always_fails))))
    (build_playlist_items
       (Examples.with_commands (Examples.command "pause") Absent
          (set_player (mkPlayer (Some 0) None false)
             (set_procs [Running None]
                (Examples.world_of [] [] Absent Examples.always_fails))))).2)
    as (_ & _ & _ & Hex & _ & _ & _ & Hs).
  - vm_compute. reflexivity.
  - split; [apply (Hex 0); reflexivity|exact Hs].
Defined.

Lemma single_player_ext w w' :
  procs w' = procs w -> vlc_process (player w') = vlc_process (player w) ->
  single_player w -> single_player w'.
Proof.
  intros Hp Hv H pid. unfold proc_alive. rewrite Hp, Hv. apply H.
Qed.

Lemma single_player_later w w' :
  later w w' -> single_player w -> single_player w'.
Proof.
  intros Hl. apply later_controller in Hl as (Hp & Hpl & _).
  apply single_player_ext; [exact Hp|now rewrite Hpl].
Qed.

Lemma no_player_single w : no_player w -> single_player w.
Proof. intros H pid Ha. rewrite H in Ha. discriminate. Qed.

Lemma single_idle w :
  single_player w -> is_vlc_running w = false -> no_player w.
Proof.
  intros Hs Hr pid. destruct (proc_alive w pid) eqn:Ea; [|reflexivity].
  unfold is_vlc_running in Hr. rewrite (Hs pid Ea) in Hr. congruence.
Qed.

Lemma stop_vlc_single w :
  single_player w ->
  wp stop_vlc w (fun r w' => r = Ok tt /\ no_player w').
Proof.
  intros Hs. unfold stop_vlc. apply wp_bind, wp_get.
  destruct (vlc_process (player w)) as [pid|] eqn:Epid.
  - destruct (proc_alive w pid) eqn:Ea.
    + apply wp_modify. split; [reflexivity|]. intros pid'.
      unfold proc_alive. cbn.
      destruct (decide (pid' = pid)) as [->|Hne].
      * rewrite list_lookup_insert_eq; [reflexivity|].
        unfold proc_alive in Ea. apply lookup_lt_is_Some.
        destruct (procs w !! pid); [eauto|discriminate].
      * rewrite list_lookup_insert_ne by congruence.
        destruct (proc_alive w pid') eqn:Ea'; [|exact Ea'].
        specialize (Hs pid' Ea'). congruence.
    + apply wp_ret. split; [reflexivity|]. apply single_idle; [exact Hs|].
      unfold is_vlc_running. now rewrite Epid.
  - apply wp_ret. split; [reflexivity|]. apply single_idle; [exact Hs|].
    unfold is_vlc_running. now rewrite Epid.
Qed.

Lemma start_vlc_single w :
  no_player w -> wp start_vlc w (fun _ w' => single_player w').
Proof.
  intros Hn. unfold start_vlc. apply wp_bind, wp_get.
  destruct (cvlc_installed w).
  - apply wp_modify. intros pid. unfold proc_alive. cbn.
    destruct (decide (pid < length (procs w))) as [Hlt|Hge].
    + rewrite lookup_app_l by exact Hlt. intros Ha.
      specialize (Hn pid). unfold proc_alive in Hn. congruence.
    + destruct (decide (pid = length (procs w))) as [->|Hne]; [reflexivity|].
      rewrite lookup_ge_None_2; [discriminate|].
      rewrite length_app. cbn. lia.
  - apply wp_raise. now apply no_player_single.
Qed.

Lemma no_player_ext w w' :
  procs w' = procs w -> no_player w -> no_player w'.
Proof. intros Hp H pid. unfold proc_alive. rewrite Hp. apply H. Qed.

Lemma signal_single (f : ProcState -> ProcState) pid w :
  (forall st, match st, f st with
              | Exited, Exited => True
              | Exited, _ | _, Exited => False
              | _, _ => True
              end) ->
  single_player w ->
  single_player
    (match procs w !! pid with
     | Some st => set_procs (<[pid := f st]> (procs w)) w
     | None => w
     end).
Proof.
  intros Hf Hs. destruct (procs w !! pid) as [st|] eqn:El; [|exact Hs].
  intros pid'. unfold proc_alive. cbn.
  destruct (decide (pid' = pid)) as [->|Hne].
  - rewrite list_lookup_insert_eq by (apply lookup_lt_is_Some; eauto).
    intros Ha. apply Hs. unfold proc_alive. rewrite El.
    specialize (Hf st). destruct st; try reflexivity.
    destruct (f Exited); try contradiction. discriminate.
  - rewrite list_lookup_insert_ne by congruence. apply Hs.
Qed.

Lemma sigstop_single pid w :
  single_player w -> wp (sigstop pid) w (fun r w' => r = Ok tt /\ single_player w').
Proof.
  intros Hs. apply wp_modify. split; [reflexivity|].
  pose proof (signal_single
    (fun st => match st with Running pl => Suspended pl | _ => st end) pid w)
    as H.
  destruct (procs w !! pid) as [[pl|pl|]|] eqn:El; try exact Hs;
    apply H; try exact Hs; now intros [].
Qed.

Lemma sigcont_single pid w :
  single_player w -> wp (sigcont pid) w (fun r w' => r = Ok tt /\ single_player w').
Proof.
  intros Hs. apply wp_modify. split; [reflexivity|].
  pose proof (signal_single
    (fun st => match st with Suspended pl => Running pl | _ => st end) pid w)
    as H.
  destruct (procs w !! pid) as [[pl|pl|]|] eqn:El; try exact Hs;
    apply H; try exact Hs; now intros [].
Qed.

Lemma create_playlist_single items w :
  wp (create_playlist items) w (fun _ w' =>
    procs w' = procs w /\ player w' = player w /\
    cvlc_installed w' = cvlc_installed w).
Proof.
  unfold create_playlist. apply wp_bind, wp_get.
  destruct (m3u_writable w); [apply wp_modify|apply wp_raise]; auto.
Qed.

Lemma build_single w :
  single_player w ->
  wp build_playlist_items w (fun _ w' => single_player w' /\
    is_vlc_running w' = is_vlc_running w).
Proof.
  intros Hs. unfold wp. pose proof (build_playlist_items_later w) as Hl.
  split; [eapply single_player_later; eauto|now apply later_running].
Qed.

Lemma restart_single items ev w :
  single_player w ->
  wp (create_playlist items ;;; stop_vlc ;;; start_vlc ;;; log_event ev) w
    (fun _ w' => single_player w').
Proof.
  intros Hs. apply wp_bind.
  eapply wp_conseq; [apply create_playlist_single|]. cbv beta.
  intros [[]|exn] w1 (Hp & Hpl & _);
    assert (Hs1 : single_player w1)
      by (eapply single_player_ext; [exact Hp|now rewrite Hpl|exact Hs]);
    [|exact Hs1].
  apply wp_bind. eapply wp_conseq; [apply stop_vlc_single, Hs1|]. cbv beta.
  intros r w2 (-> & Hn).
  apply wp_bind. eapply wp_conseq; [apply start_vlc_single, Hn|]. cbv beta.
  intros [[]|exn] w3 Hs3; [|exact Hs3].
  apply wp_log. eapply single_player_ext; [| |exact Hs3]; reflexivity.
Qed.

Lemma apply_action_single action w :
  single_player w ->
  wp (apply_action action) w (fun _ w' => single_player w').
Proof.
  intros Hs. unfold apply_action.
  destruct (action_is action "pause").
  { apply wp_bind, wp_get. destruct (vlc_process (player w)) as [pid|];
      [|apply wp_ret, Hs].
    destruct (is_vlc_running w); [|apply wp_ret, Hs].
    apply wp_bind. eapply wp_conseq; [apply sigstop_single, Hs|]. cbv beta.
    intros r w1 (-> & Hs1). apply wp_log.
    eapply single_player_ext; [| |exact Hs1]; reflexivity. }
  destruct (action_is action "play").
  { apply wp_bind, wp_get. destruct (vlc_process (player w)) as [pid|];
      [|apply wp_ret, Hs].
    destruct (is_vlc_running w); [|apply wp_ret, Hs].
    apply wp_bind. eapply wp_conseq; [apply sigcont_single, Hs|]. cbv beta.
    intros r w1 (-> & Hs1). apply wp_log.
    eapply single_player_ext; [| |exact Hs1]; reflexivity. }
  destruct (_ || _); [|apply wp_ret, Hs].
  apply wp_bind. eapply wp_conseq; [apply build_single, Hs|]. cbv beta.
  intros [items|exn] w1 (Hs1 & _); [|exact Hs1].
  destruct items as [|first rest]; [apply wp_ret, Hs1|].
  now apply restart_single.
Qed.

Lemma process_commands_single w :
  single_player w ->
  wp process_commands_if_any w (fun r w' => r = Ok tt /\ single_player w').
Proof.
  intros Hs. unfold process_commands_if_any. apply wp_try, wp_bind, wp_get.
  assert (Hlog : forall ev w0, single_player w0 ->
            wp (log_event ev) w0 (fun r w' => r = Ok tt /\ single_player w')).
  { intros ev w0 H0. apply wp_log. split; [reflexivity|].
    eapply single_player_ext; [| |exact H0]; reflexivity. }
  destruct (negb _); [apply wp_ret; auto|].
  apply wp_bind, wp_lift.
  destruct (command_action _) as [action|exn]; [|now apply Hlog].
  apply wp_bind, wp_log, wp_bind, wp_modify.
  eapply wp_conseq.
  - apply apply_action_single.
    eapply single_player_ext; [| |exact Hs]; reflexivity.
  - cbv beta. intros [[]|exn] w1 Hs1; [auto|now apply Hlog].
Qed.

Lemma poll_commands_single n : forall w,
  single_player w ->
  wp (poll_commands n) w (fun r w' => r = Ok tt /\ single_player w').
Proof.
  induction n as [|n IH]; intros w Hs; [apply wp_ret; auto|].
  cbn [poll_commands]. apply wp_bind.
  eapply wp_conseq; [apply process_commands_single, Hs|]. cbv beta.
  intros r w1 (-> & Hs1). now apply IH.
Qed.

Lemma run_check_single py_hash w :
  single_player w ->
  wp (run_check py_hash) w (fun _ w' => single_player w').
Proof.
  intros Hs. unfold run_check. apply wp_bind.
  eapply wp_conseq; [apply build_single, Hs|]. cbv beta.
  intros [items|exn] w1 (Hs1 & _); [|exact Hs1].
  destruct items as [|first rest].
  { apply wp_bind. eapply wp_conseq; [apply stop_vlc_single, Hs1|]. cbv beta.
    intros r w2 (-> & Hn). apply wp_ret. now apply no_player_single. }
  set (items := first :: rest).
  apply wp_bind, wp_get. apply wp_bind.
  assert (Hset : forall (f : World -> World) w0,
            (forall w, procs (f w) = procs w) ->
            (forall w, vlc_process (player (f w)) = vlc_process (player w)) ->
            single_player w0 ->
            wp (modify f) w0 (fun r w' => r = Ok tt /\ single_player w')).
  { intros f w0 Hp Hv H0. apply wp_modify. split; [reflexivity|].
    eapply single_player_ext; [apply Hp|apply Hv|exact H0]. }
  eapply wp_conseq with (Q := fun _ w' => single_player w');
    [|intros [[]|exn] w2 Hs2; [apply wp_ret|]; exact Hs2].
  destruct (hash_changed _ w1).
  - destruct (is_vlc_running w1) eqn:Er; cbn [negb].
    + destruct (negb _); [|apply wp_ret, Hs1].
      eapply wp_conseq; [now apply Hset|]. cbv beta. tauto.
    + change (create_playlist items ;;;
              modify (set_current_playlist_hash
                (Some (Fingerprint.get_playlist_hash py_hash items))) ;;;
              start_vlc ;;; modify (set_pending_update false))
        with (bind (create_playlist items)
                (fun _ => bind (modify (set_current_playlist_hash
                   (Some (Fingerprint.get_playlist_hash py_hash items))))
                   (fun _ => bind start_vlc
                      (fun _ => modify (set_pending_update false))))).
      apply wp_bind. eapply wp_conseq; [apply create_playlist_single|].
      cbv beta. pose proof (single_idle _ Hs1 Er) as Hn1.
      intros [[]|exn] w2 (Hp & _);
        [|apply no_player_single; eapply no_player_ext; eauto].
      apply wp_bind, wp_modify, wp_bind.
      eapply wp_conseq; [apply start_vlc_single|].
      * eapply no_player_ext; [|exact Hn1]. cbn. exact Hp.
      * cbv beta. intros [[]|exn] w3 Hs3; [|exact Hs3].
        eapply wp_conseq; [now apply Hset|]. cbv beta. tauto.
  - destruct (is_vlc_running w1) eqn:Er; cbn [negb]; [apply wp_ret, Hs1|].
    pose proof (single_idle _ Hs1 Er) as Hn1.
    apply wp_bind.
    eapply wp_conseq with (Q := fun r w' =>
      match r with Ok _ => no_player w' | Raised _ => single_player w' end).
    + destruct (pending_update (player w1)); [|apply wp_ret, Hn1].
      apply wp_bind. eapply wp_conseq; [apply create_playlist_single|].
      cbv beta. intros [[]|exn] w2 (Hp & _);
        [|apply no_player_single; eapply no_player_ext; eauto].
      apply wp_bind, wp_modify, wp_modify.
      eapply no_player_ext; [|exact Hn1]. cbn. exact Hp.
    + cbv beta. intros [[]|exn] w2 H2; [|exact H2].
      now apply start_vlc_single.
Qed.

(** X13.  At most one player process.  If every process that is
    alive is the one the controller holds, this is still so after a
    poll of the command file, after a pass of the main loop and after
    any number of passes, whatever fails on the way, and also when a
    process ends by itself; two processes are then never alive
    together. *)
Theorem single_player_invariant py_hash w :
  single_player w ->
  (forall p q, proc_alive w p = true -> proc_alive w q = true -> p = q) /\
  single_player (process_commands_if_any w).2 /\
  single_player (run_pass py_hash w).2 /\
  (forall passes, single_player (run py_hash passes w).2) /\
  (forall pid, single_player (set_procs (<[pid := Exited]> (procs w)) w)).
Proof.
  intros Hs.
  assert (Hpass : forall w0, single_player w0 ->
            wp (run_pass py_hash) w0 (fun r w' =>
              r = Ok tt /\ single_player w')).
  { intros w0 H0. unfold run_pass. apply wp_try, wp_bind.
    eapply wp_conseq; [apply run_check_single, H0|]. cbv beta.
    intros [go|exn] w1 H1; [|apply wp_ret; auto].
    destruct go; [|apply wp_ret; auto].
    eapply wp_conseq; [apply poll_commands_single, H1|]. cbv beta.
    intros r w2 (-> & H2). auto. }
  split_and!.
  - intros p q Hp Hq. apply Hs in Hp, Hq. congruence.
  - apply process_commands_single, Hs.
  - apply Hpass, Hs.
  - intros passes. revert w Hs.
    induction passes as [|n IH]; intros w Hs; [exact Hs|].
    cbn [run]. unfold bind. pose proof (Hpass w Hs) as H. unfold wp in H.
    destruct (run_pass py_hash w) as [r w1]. cbn [fst snd] in H.
    destruct H as (-> & H1). now apply IH.
  - intros pid pid'. unfold proc_alive. cbn.
    destruct (decide (pid' = pid)) as [->|Hne].
    + destruct (decide (pid < length (procs w))) as [Hlt|Hge].
      * rewrite list_lookup_insert_eq by exact Hlt. discriminate.
      * rewrite list_insert_ge by lia. apply Hs.
    + rewrite list_lookup_insert_ne by congruence. apply Hs.
Qed.

Lemma single_player_invariant_witness :
  let w := Examples.with_commands (Examples.command "next") Absent
             (Examples.world_of ["a.mp4"; "b.mp4"] [] Absent
                Examples.always_fails) in
  single_player (run FingerprintSpec.toy_hash 3 w).2.
Proof.
  cbv zeta.
  destruct (single_player_invariant FingerprintSpec.toy_hash
    (Examples.with_commands (Examples.command "next") Absent
       (Examples.world_of ["a.mp4"; "b.mp4"] [] Absent
          Examples.always_fails))) as (_ & _ & _ & H & _).
  - intros pid Ha. vm_compute in Ha. now destruct pid.
  - apply H.
Defined.

End LoopFacts.

Module PositionFacts.
Import Py Json Env Converter Sync Web SyncFacts ResolverFacts.
Local Open Scope Z_scope.

Lemma cumulative_upper_lookup pl : forall idx item,
  pl !! idx = Some item ->
  cumulative_upper pl idx = cumulative_lower pl idx + duration_of item.
Proof.
  induction pl as [|it rest IH]; intros idx item Hl; [discriminate|].
  destruct idx as [|idx].
  - injection Hl as ->. rewrite cumulative_upper_head, cumulative_lower_0. lia.
  - rewrite cumulative_upper_cons, cumulative_lower_cons.
    rewrite (IH idx item Hl). lia.
Qed.

Lemma total_nonneg pl :
  Forall (fun item => 0 <= duration_of item) pl ->
  0 <= calculate_total_duration pl.
Proof.
  unfold calculate_total_duration.
  induction 1 as [|it l Hit _ IH]; [reflexivity|].
  cbn [map]. rewrite py_sum_cons. lia.
Qed.

(** The position found lies inside the item found. *)
Lemma position_in_range pl elapsed :
  Forall (fun item => 0 <= duration_of item) pl ->
  calculate_total_duration pl <> 0 ->
  exists item,
    pl !! (get_current_item_index pl elapsed).1 = Some item /\
    0 <= (get_current_item_index pl elapsed).2 < duration_of item /\
    cumulative_lower pl (get_current_item_index pl elapsed).1
    + (get_current_item_index pl elapsed).2
    = elapsed mod calculate_total_duration pl.
Proof.
  intros Hnn Htot.
  pose proof (total_nonneg pl Hnn) as Hge.
  set (pos := elapsed mod calculate_total_duration pl).
  assert (Hpos : 0 <= pos < calculate_total_duration pl)
    by (apply Z.mod_pos_bound; lia).
  destruct (first_exceeding_dec pl pos) as [(k & Hk)|Hnone].
  - unfold get_current_item_index.
    destruct (Z.eqb_spec (calculate_total_duration pl) 0); [contradiction|].
    fold pos.
    rewrite (scan_items_found pl 0 0 pos k) by (now rewrite Z.sub_0_r).
    cbn [fst snd]. destruct Hk as (Hlen & Hup & Hbelow).
    destruct (lookup_lt_is_Some_2 pl k Hlen) as (item & Hitem).
    exists item. split; [exact Hitem|].
    rewrite (cumulative_upper_lookup _ _ _ Hitem) in Hup.
    assert (Hlow : cumulative_lower pl k <= pos).
    { destruct k as [|j]; [rewrite cumulative_lower_0; lia|].
      apply (Hbelow j). lia. }
    change (0 + k)%nat with k. clearbody pos. lia.
  - exfalso.
    assert (Hne : pl <> []) by (intros ->; apply Htot; reflexivity).
    assert (Hlt : (Nat.pred (length pl) < length pl)%nat)
      by (destruct pl; [congruence|cbn; lia]).
    specialize (Hnone _ Hlt).
    rewrite cumulative_upper_last in Hnone by assumption.
    clearbody pos. lia.
Qed.

(** X14.  The synchronised position repeats with every loop of the
    playlist.  When no duration is negative and the total is not 0, the
    index returned is an index of the playlist, the offset returned lies
    within the duration of that item, and the durations before the item
    plus the offset make up the elapsed time modulo the total. *)
Theorem sync_position_in_item playlist elapsed :
  (forall k, get_current_item_index playlist
               (elapsed + k * calculate_total_duration playlist)
             = get_current_item_index playlist elapsed) /\
  (Forall (fun item => 0 <= duration_of item) playlist ->
   calculate_total_duration playlist <> 0 ->
   exists item,
     playlist !! (get_current_item_index playlist elapsed).1 = Some item /\
     0 <= (get_current_item_index playlist elapsed).2 < duration_of item /\
     cumulative_lower playlist (get_current_item_index playlist elapsed).1
     + (get_current_item_index playlist elapsed).2
     = elapsed mod calculate_total_duration playlist).
Proof.
  split.
  - intros k. unfold get_current_item_index.
    destruct (Z.eqb_spec (calculate_total_duration playlist) 0);
      [reflexivity|].
    now rewrite Z.mod_add.
  - apply position_in_range.
Qed.

Lemma sync_position_in_item_witness :
  let playlist := [mkWebItem "video" "/content/videos/a.mp4" "a.mp4" (Some 30);
                   mkWebItem "image" "/content/slides/d/slide_000.png"
                     "slide_000.png" (Some 10)] in
  exists item,
    playlist !! (get_current_item_index playlist 115).1 = Some item /\
    0 <= (get_current_item_index playlist 115).2 < duration_of item.
Proof.
  cbv zeta.
  destruct (sync_position_in_item
    [mkWebItem "video" "/content/videos/a.mp4" "a.mp4" (Some 30);
     mkWebItem "image" "/content/slides/d/slide_000.png"
       "slide_000.png" (Some 10)] 115) as (_ & H).
  destruct H as (item & Hl & Hr & _).
  - repeat constructor; vm_compute; discriminate.
  - vm_compute. discriminate.
  - exists item. split; [exact Hl|exact Hr].
Defined.

Lemma py_sum_app xs ys : py_sum (xs ++ ys) = py_sum xs + py_sum ys.
Proof.
  induction xs as [|x xs IH]; [reflexivity|].
  cbn [app]. rewrite !py_sum_cons, IH. lia.
Qed.

Lemma py_sum_const c (xs : list Z) :
  Forall (fun x => x = c) xs -> py_sum xs = c * Z.of_nat (length xs).
Proof.
  induction 1 as [|x xs -> _ IH]; [cbn; lia|].
  rewrite py_sum_cons, IH. cbn [length]. lia.
Qed.

(** X15.  The catalog of the synchronised endpoint.
    [build_playlist_with_durations] lists every video, with 30 seconds,
    followed by every slide of the cache, with 10 seconds; its total
    duration is accordingly; and unless it is empty,
    [get_current_item_index] returns for every elapsed time an item of
    it and an offset within that item's duration. *)
Theorem sync_catalog_durations w :
  let playlist := build_playlist_with_durations w in
  playlist = map sync_video (get_video_files w)
             ++ map (fun '(key, name) => web_slide key name)
                  (get_slide_files w) /\
  calculate_total_duration playlist
  = 30 * Z.of_nat (length (get_video_files w))
    + 10 * Z.of_nat (length (get_slide_files w)) /\
  (playlist <> [] ->
   forall elapsed, exists item,
     playlist !! (get_current_item_index playlist elapsed).1 = Some item /\
     0 <= (get_current_item_index playlist elapsed).2 < duration_of item).
Proof.
  cbv zeta.
  assert (Hshape : build_playlist_with_durations w
                   = map sync_video (get_video_files w)
                     ++ map (fun '(key, name) => web_slide key name)
                          (get_slide_files w)).
  { unfold build_playlist_with_durations. now rewrite !append_each_spec. }
  assert (Htot : calculate_total_duration (build_playlist_with_durations w)
                 = 30 * Z.of_nat (length (get_video_files w))
                   + 10 * Z.of_nat (length (get_slide_files w))).
  { rewrite Hshape. unfold calculate_total_duration.
    rewrite map_app, py_sum_app, !map_map.
    rewrite (py_sum_const 30), (py_sum_const 10), !length_map; [reflexivity|..].
    - apply Forall_forall. intros x (y & -> & _)%list_elem_of_fmap.
      now destruct y.
    - apply Forall_forall. now intros x (y & -> & _)%list_elem_of_fmap. }
  split_and!; try assumption.
  intros Hne elapsed.
  destruct (position_in_range (build_playlist_with_durations w) elapsed)
    as (item & Hl & Hr & _).
  - rewrite Hshape. apply Forall_app. split; apply Forall_forall.
    + intros x (y & -> & _)%list_elem_of_fmap. now cbv.
    + intros x ([k n] & -> & _)%list_elem_of_fmap. now cbv.
  - rewrite Htot. rewrite Hshape in Hne.
    destruct (get_video_files w); destruct (get_slide_files w);
      cbn [length] in *; try lia. now contradiction Hne.
  - eauto.
Qed.

Lemma sync_catalog_durations_witness :
  let w := Examples.world_of ["a.mp4"] [] Absent Examples.always_fails in
  exists item,
    build_playlist_with_durations w
      !! (get_current_item_index (build_playlist_with_durations w) 47).1
    = Some item.
Proof.
  cbv zeta.
  destruct (sync_catalog_durations
    (Examples.world_of ["a.mp4"] [] Absent Examples.always_fails))
    as (_ & _ & H).
  destruct (H ltac:(vm_compute; discriminate) 47) as (item & Hl & _).
  exists item. exact Hl.
Defined.

End PositionFacts.

Module StreamFacts.
Import Py Json Ordering Env Converter Sync Web Fingerprint Stream.
Import StreamSpec StringFacts.

(** X16.  The playlist cache of the stream server.  The hash that
    [get_playlist] keeps and returns is always the hash of the playlist
    it keeps and returns.  A cache that holds a playlist, is within its
    time to live and was built for the current modification time of the
    ordering file is answered without looking at the content; otherwise
    the playlist is resolved anew and kept, and if that raises, the
    cache stays as it was. *)
Theorem playlist_cache_coherent md5 now st_mtime w c :
  coherent md5 c ->
  let pl_mtime :=
    if file_exists (playlist_json w) then st_mtime else 0%float in
  let r := get_playlist md5 now st_mtime w c in
  coherent md5 r.2 /\
  match r.1 with
  | Ok (data, playlist_hash) =>
      exists playlist,
        data = Some playlist /\ pc_data r.2 = Some playlist /\
        playlist_hash = Some (get_playlist_hash_from md5 playlist)
  | Raised exn => r.2 = c /\ get_playlist_uncached w = Raised exn
  end /\
  (forall playlist, pc_data c = Some playlist -> fresh now pl_mtime c ->
     r = (Ok (Some playlist, pc_hash c), c)) /\
  (pc_data c = None \/ ~ fresh now pl_mtime c ->
   forall playlist, get_playlist_uncached w = Ok playlist ->
     r = (Ok (Some playlist, Some (get_playlist_hash_from md5 playlist)),
          mkCache (Some playlist)
            (Some (get_playlist_hash_from md5 playlist)) now pl_mtime)).
Proof.
  intros Hco. cbv zeta. unfold get_playlist.
  set (pl_mtime := if file_exists (playlist_json w) then st_mtime else 0%float).
  set (expired := match pc_data c with
                  | Some _ => PrimFloat.ltb PLAYLIST_CACHE_TTL
                                (PrimFloat.sub now (pc_timestamp c))
                  | None => true
                  end).
  set (changed := negb (PrimFloat.eqb pl_mtime (pc_playlist_mtime c))).
  assert (Hfresh : forall playlist, pc_data c = Some playlist ->
            (fresh now pl_mtime c <-> expired || changed = false)).
  { intros playlist Hd. subst expired changed. rewrite Hd. unfold fresh.
    rewrite orb_false_iff, negb_false_iff. tauto. }
  destruct (expired || changed) eqn:Ere.
  - destruct (get_playlist_uncached w) as [playlist|exn] eqn:Eu; cbn [fst snd].
    + split_and!.
      * intros d [= <-]. reflexivity.
      * eauto.
      * intros d Hd Hf. apply (Hfresh d Hd) in Hf. congruence.
      * intros _ d [= <-]. reflexivity.
    + split_and!; auto.
      * intros d Hd Hf. apply (Hfresh d Hd) in Hf. congruence.
      * intros _ d [=].
  - cbn [fst snd].
    assert (Hsome : exists playlist, pc_data c = Some playlist).
    { subst expired. destruct (pc_data c); [eauto|discriminate]. }
    destruct Hsome as (d & Hd). split_and!.
    + exact Hco.
    + exists d. split_and!; auto.
    + intros d' Hd' _. congruence.
    + intros [Hn|Hn]; [congruence|]. exfalso. apply Hn.
      now apply (Hfresh d Hd).
Qed.

Lemma playlist_cache_coherent_witness :
  let w := Examples.world_of ["a.mp4"] [] Absent Examples.always_fails in
  let r := get_playlist FingerprintSpec.toy_md5 100%float 0%float w
             empty_cache in
  r.1 = Ok (Some [web_video "a.mp4"],
            Some (get_playlist_hash_from FingerprintSpec.toy_md5
                    [web_video "a.mp4"])).
Proof.
  cbv zeta.
  destruct (playlist_cache_coherent FingerprintSpec.toy_md5
    100%float 0%float
    (Examples.world_of ["a.mp4"] [] Absent Examples.always_fails)
    empty_cache) as (_ & _ & _ & H).
  - intros playlist [=].
  - rewrite (H (or_introl eq_refl) [web_video "a.mp4"]); [reflexivity|].
    vm_compute. reflexivity.
Defined.

Lemma recent_lookup cutoff (seen : gmap string float) ip ts :
  recent cutoff seen !! ip = Some ts
  <-> seen !! ip = Some ts /\ PrimFloat.ltb ts cutoff = false.
Proof. unfold recent. now rewrite map_lookup_filter_Some. Qed.

Lemma recent_idem cutoff (seen : gmap string float) :
  recent cutoff (recent cutoff seen) = recent cutoff seen.
Proof.
  apply map_eq. intros ip. apply option_eq. intros ts.
  rewrite !recent_lookup. tauto.
Qed.

(** X17.  Counting the active clients.  [get_active_clients] drops
    the clients last seen before the cutoff, keeps the others with
    their times, and returns how many are left; counting again at the
    same time changes nothing. *)
Theorem active_clients_pruned now seen :
  let cutoff := PrimFloat.sub now CLIENT_TTL_SECONDS in
  let r := get_active_clients now seen in
  r.1 = size r.2 /\
  (forall ip ts, r.2 !! ip = Some ts
                 <-> seen !! ip = Some ts /\ PrimFloat.ltb ts cutoff = false) /\
  r.1 <= size seen /\
  get_active_clients now r.2 = r.
Proof.
  cbv zeta. unfold get_active_clients. cbn [fst snd]. split_and!.
  - reflexivity.
  - intros ip ts. apply recent_lookup.
  - apply map_subseteq_size, map_filter_subseteq.
  - now rewrite recent_idem.
Qed.

Lemma before_comma_lacks s : FingerprintSpec.lacks "," (before_comma s) = true.
Proof.
  induction s as [|c s IH]; [reflexivity|]. cbn [before_comma].
  destruct (Ascii.eqb c ",") eqn:E; [reflexivity|].
  cbn [FingerprintSpec.lacks]. now rewrite E, IH.
Qed.

Lemma before_comma_app first rest :
  FingerprintSpec.lacks "," first = true ->
  before_comma (first +:+ String "," rest) = first.
Proof.
  induction first as [|c s IH]; intros H.
  - reflexivity.
  - cbn [FingerprintSpec.lacks] in H. apply andb_true_iff in H as [Hc Hs].
    rewrite FingerprintFacts.app_String. cbn [before_comma].
    apply negb_true_iff in Hc. rewrite Hc. now rewrite IH.
Qed.

(** X18.  Which address identifies a client.  With several
    addresses in [X-Forwarded-For] it is the first, without the blanks
    around it; without that header it is the address of the peer.  A
    request without any address is not recorded.  Otherwise the address
    is recorded with the time of the request, and as long as the table
    has at most 200 clients nothing is removed; pruning never adds or
    changes an entry. *)
Theorem client_identity forwarded remote_addr now seen :
  let client_ip := get_client_ip forwarded remote_addr in
  let seen' := track_client forwarded remote_addr now seen in
  (forall first rest,
     forwarded = Some (first +:+ String "," rest) ->
     FingerprintSpec.lacks "," first = true ->
     client_ip = str_strip first) /\
  (forwarded = None \/ forwarded = Some "" ->
   forall addr, remote_addr = Some addr ->
     client_ip = str_strip (before_comma addr)) /\
  (client_ip = "" -> seen' = seen) /\
  (client_ip <> "" -> size (<[client_ip := now]> seen) <= 200 ->
   seen' = <[client_ip := now]> seen) /\
  (client_ip <> "" ->
   forall ip ts, seen' !! ip = Some ts ->
     <[client_ip := now]> seen !! ip = Some ts).
Proof.
  cbv zeta. split_and!.
  - intros first rest -> Hf. unfold get_client_ip.
    assert (Hne : String.eqb (first +:+ String "," rest) "" = false)
      by (apply String.eqb_neq; destruct first; discriminate).
    rewrite Hne. cbn [negb default from_option id].
    now rewrite before_comma_app.
  - intros Hfw addr ->. unfold get_client_ip.
    destruct Hfw as [-> | ->]; cbn [negb String.eqb default];
      destruct addr; reflexivity.
  - intros Hip. unfold track_client. now rewrite Hip.
  - intros Hip Hsize. unfold track_client.
    apply String.eqb_neq in Hip. rewrite Hip.
    destruct (Nat.ltb_spec 200 (size (<[get_client_ip forwarded remote_addr
                                          := now]> seen))); [lia|reflexivity].
  - intros Hip ip ts. unfold track_client.
    apply String.eqb_neq in Hip. rewrite Hip.
    destruct (200 <? _); [|auto].
    now intros [H _]%recent_lookup.
Qed.

Lemma client_identity_witness :
  get_client_ip (Some "10.0.0.7 , 192.168.1.1") (Some "127.0.0.1")
  = "10.0.0.7".
Proof.
  destruct (client_identity (Some "10.0.0.7 , 192.168.1.1")
              (Some "127.0.0.1") 0%float ∅) as (H & _).
  etransitivity; [apply (H "10.0.0.7 " " 192.168.1.1")|]; reflexivity.
Defined.

End StreamFacts.

Module EditorFacts.
Import Py Json Ordering Env Converter Player Dashboard Controller Relay.
Import Editor.
Import Hoare ConverterSpec ConverterFacts ResolverSpec ResolverFacts.
Import ControllerSpec ControllerFacts CatalogSpec EditorSpec.
Local Open Scope signage_scope.

(** Reading back what [write_playlist] wrote: the entries with a
    truthy name. *)
Lemma normalize_written (entries : list Entry) :
  Forall (fun e => (1 <= e_repeats e)%Z) entries ->
  normalize_loop (map entry_json entries) [] = filter named entries.
Proof.
  intros H. rewrite OrderingFacts.normalize_loop_acc. cbn [app].
  induction H as [|e rest Hr _ IH]; [reflexivity|].
  cbn [map flat_map]. rewrite IH.
  unfold normalize_entry, entry_json. cbn [normalize_loop].
  assert (Hn : entry_name [("name", e_name e); ("repeats", JInt (e_repeats e))]
               = if truthy (e_name e) then e_name e else JNull).
  { unfold entry_name, dict_get, py_or. cbn. now destruct (truthy (e_name e)). }
  assert (Hrep : entry_repeats [("name", e_name e);
                                ("repeats", JInt (e_repeats e))]
                 = e_repeats e) by reflexivity.
  rewrite Hn, Hrep. destruct (truthy (e_name e)) eqn:Ht.
  - rewrite Ht, filter_cons_True by exact Ht. cbn.
    rewrite Z.max_r by assumption. now destruct e.
  - cbn [truthy]. rewrite filter_cons_False; [reflexivity|].
    unfold named. congruence.
Qed.

Lemma write_playlist_run lst w :
  write_playlist lst w
  = if json_writable w
    then (Ok true, set_playlist_json (Holds (JArr (map entry_json lst))) w)
    else (Ok false, w).
Proof.
  unfold write_playlist. cbv [bind get_world modify ret].
  now destruct (json_writable w).
Qed.

Lemma filter_named_app (l1 l2 : list Entry) :
  filter named (l1 ++ l2) = filter named l1 ++ filter named l2.
Proof. apply filter_app. Qed.

Lemma existsb_filter_named filename (l : list Entry) :
  filename <> "" ->
  existsb (name_is filename) (filter named l) = existsb (name_is filename) l.
Proof.
  intros Hne. induction l as [|e l IH]; [reflexivity|].
  destruct (decide (named e)) as [Hn|Hn].
  - rewrite filter_cons_True by exact Hn. cbn. now rewrite IH.
  - rewrite filter_cons_False by exact Hn. cbn. rewrite IH.
    assert (Hf : name_is filename e = false); [|now rewrite Hf].
    unfold name_is. unfold named in Hn. destruct (e_name e); try reflexivity.
    cbn in Hn. apply String.eqb_neq. intros ->.
    apply Hn. now apply negb_true_iff, String.eqb_neq.
Qed.

Lemma existsb_other filename (l : list Entry) :
  existsb (name_is filename) (filter (other_than filename) l) = false.
Proof.
  induction l as [|e l IH]; [reflexivity|].
  destruct (decide (other_than filename e)) as [Hn|Hn].
  - rewrite filter_cons_True by exact Hn. cbn. now rewrite Hn, IH.
  - now rewrite filter_cons_False by exact Hn.
Qed.

Lemma filter_other_id filename (l : list Entry) :
  existsb (name_is filename) l = false -> filter (other_than filename) l = l.
Proof.
  induction l as [|e l IH]; [reflexivity|]. cbn [existsb].
  intros [He Hl]%orb_false_iff.
  rewrite filter_cons_True by exact He. now rewrite IH.
Qed.

Lemma filter_filter_comm {A} (P Q : A -> Prop)
    `{!forall x, Decision (P x)} `{!forall x, Decision (Q x)} (l : list A) :
  filter P (filter Q l) = filter Q (filter P l).
Proof.
  induction l as [|x l IH]; [reflexivity|].
  destruct (decide (P x)) as [HP|HP], (decide (Q x)) as [HQ|HQ];
    rewrite ?(filter_cons_True Q) by exact HQ;
    rewrite ?(filter_cons_False Q) by exact HQ;
    rewrite ?(filter_cons_True P) by exact HP;
    rewrite ?(filter_cons_False P) by exact HP;
    rewrite ?(filter_cons_True Q) by exact HQ;
    rewrite ?(filter_cons_False Q) by exact HQ;
    now rewrite IH.
Qed.

Lemma name_is_self filename r :
  name_is filename (mkEntry (JStr filename) r) = true.
Proof. unfold name_is. cbn [e_name]. apply String.eqb_refl. Qed.

Lemma toggle_playlist_run content_type filename w :
  content_type ∈ ["video"; "presentation"] ->
  let items := read_selected (playlist_json w) in
  let found := existsb (name_is filename) items in
  let items' := if found then filter (other_than filename) items
                else items ++ [mkEntry (JStr filename) 1] in
  toggle_playlist content_type filename w
  = if json_writable w
    then (Ok (Toggled (negb found) filename),
          set_playlist_json (Holds (JArr (map entry_json items'))) w)
    else (Ok ToggleFailed, w).
Proof.
  intros Hct. cbv zeta. unfold toggle_playlist.
  rewrite bool_decide_eq_true_2 by exact Hct. cbn [negb].
  unfold bind at 1. cbn [get_world]. rewrite normalize_read_playlist.
  unfold bind. rewrite write_playlist_run.
  now destruct (json_writable w).
Qed.

Lemma Forall_filter_keep {A} (P : A -> Prop) (Q : A -> Prop)
    `{!forall x, Decision (Q x)} (l : list A) :
  Forall P l -> Forall P (filter Q l).
Proof.
  rewrite !Forall_forall. intros Hall x [_ Hx]%list_elem_of_filter. auto.
Qed.

Lemma toggled_repeats filename (items : list Entry) :
  Forall (fun e => (1 <= e_repeats e)%Z) items ->
  Forall (fun e => (1 <= e_repeats e)%Z)
    (if existsb (name_is filename) items
     then filter (other_than filename) items
     else items ++ [mkEntry (JStr filename) 1]).
Proof.
  intros H. destruct (existsb _ _).
  - now apply Forall_filter_keep.
  - apply Forall_app. split; [exact H|]. repeat constructor. cbn. lia.
Qed.

(** X19.  Toggling a file.  For another content type than [video]
    and [presentation] nothing happens; when the ordering cannot be
    written the answer is a failure and the file stays.  Otherwise, if
    some entry of the ordering has the name, all entries of that name
    are removed, and if none has, one entry with [repeats = 1] is added
    at the end; the answer tells which.  In the ordering read
    afterwards the file is present exactly when it was not before, and
    the other entries of non-empty name are the same, in the same
    order. *)
Theorem toggle_playlist_effect w content_type filename :
  let items := read_selected (playlist_json w) in
  let found := existsb (name_is filename) items in
  let items' := if found then filter (other_than filename) items
                else items ++ [mkEntry (JStr filename) 1] in
  let r := toggle_playlist content_type filename w in
  (content_type ∉ ["video"; "presentation"] -> r = (Ok ToggleInvalid, w)) /\
  (content_type ∈ ["video"; "presentation"] -> json_writable w = false ->
   r = (Ok ToggleFailed, w)) /\
  (content_type ∈ ["video"; "presentation"] -> json_writable w = true ->
   r = (Ok (Toggled (negb found) filename),
        set_playlist_json (Holds (JArr (map entry_json items'))) w) /\
   read_selected (playlist_json r.2) = filter named items' /\
   (filename <> "" ->
    existsb (name_is filename) (read_selected (playlist_json r.2))
    = negb found) /\
   filter (other_than filename) (read_selected (playlist_json r.2))
   = filter (other_than filename) (filter named items)).
Proof.
  cbv zeta. split_and!.
  - intros Hct. unfold toggle_playlist.
    now rewrite bool_decide_eq_false_2 by exact Hct.
  - intros Hct Hw. rewrite toggle_playlist_run by exact Hct. now rewrite Hw.
  - intros Hct Hw. rewrite toggle_playlist_run by exact Hct. rewrite Hw.
    cbn [fst snd playlist_json set_playlist_json read_selected].
    rewrite normalize_written
      by (apply toggled_repeats, read_selected_repeats).
    split_and!; try reflexivity.
    + intros Hne. rewrite existsb_filter_named by exact Hne.
      destruct (existsb _ (read_selected _)) eqn:Ef; cbn [negb].
      * apply existsb_other.
      * rewrite existsb_app, Ef. cbn [existsb]. now rewrite name_is_self.
    + rewrite !(filter_filter_comm (other_than filename) named). f_equal.
      destruct (existsb _ (read_selected _)) eqn:Ef.
      * apply list_filter_filter_l. tauto.
      * rewrite filter_app, filter_cons_False.
        -- cbn. apply app_nil_r.
        -- unfold other_than. rewrite name_is_self. discriminate.
Qed.

Lemma toggle_playlist_effect_witness :
  let w := Examples.world_of ["a.mp4"; "b.mp4"] []
             (Holds (JArr [JStr "a.mp4"])) Examples.always_fails in
  read_selected (playlist_json (toggle_playlist "video" "b.mp4" w).2)
  = [mkEntry (JStr "a.mp4") 1; mkEntry (JStr "b.mp4") 1].
Proof.
  cbv zeta.
  destruct (toggle_playlist_effect
    (Examples.world_of ["a.mp4"; "b.mp4"] []
       (Holds (JArr [JStr "a.mp4"])) Examples.always_fails)
    "video" "b.mp4") as (_ & _ & H).
  destruct H as (_ & Hread & _).
  - apply (bool_decide_unpack _). vm_compute. exact I.
  - reflexivity.
  - etransitivity; [exact Hread|]. vm_compute. reflexivity.
Defined.

(** X20.  Toggling twice.  If the file was not in the ordering, the
    ordering is read as before.  If it was, its entries are gone from
    their places and one entry with [repeats = 1] stands at the end. *)
Theorem toggle_twice w content_type filename :
  content_type ∈ ["video"; "presentation"] ->
  json_writable w = true -> filename <> "" ->
  let items := filter named (read_selected (playlist_json w)) in
  let once := (toggle_playlist content_type filename w).2 in
  let twice := toggle_playlist content_type filename once in
  twice.1 = Ok (Toggled (existsb (name_is filename) items) filename) /\
  read_selected (playlist_json twice.2)
  = if existsb (name_is filename) items
    then filter (other_than filename) items ++ [mkEntry (JStr filename) 1]
    else items.
Proof.
  intros Hct Hw Hne. cbv zeta.
  rewrite (toggle_playlist_run content_type filename w Hct). cbv zeta.
  rewrite Hw. cbn [snd].
  set (items := read_selected (playlist_json w)).
  set (items' := if existsb (name_is filename) items
                 then filter (other_than filename) items
                 else items ++ [mkEntry (JStr filename) 1]).
  set (once := set_playlist_json _ w).
  assert (Hrep : Forall (fun e => (1 <= e_repeats e)%Z) items)
    by apply read_selected_repeats.
  assert (Honce : read_selected (playlist_json once) = filter named items').
  { subst once. cbn. apply normalize_written. now apply toggled_repeats. }
  rewrite (toggle_playlist_run content_type filename once Hct). cbv zeta.
  change (json_writable once) with (json_writable w). rewrite Hw.
  cbn [fst snd playlist_json set_playlist_json read_selected].
  rewrite normalize_written
    by (apply toggled_repeats, read_selected_repeats).
  rewrite Honce, !existsb_filter_named by exact Hne.
  assert (Hnamed_f : named (mkEntry (JStr filename) 1)).
  { unfold named. cbn. now apply negb_true_iff, String.eqb_neq. }
  subst items'. destruct (existsb (name_is filename) items) eqn:Ef.
  - rewrite existsb_other. cbn [negb]. split; [reflexivity|].
    rewrite filter_app, filter_cons_True by exact Hnamed_f.
    rewrite filter_nil. f_equal.
    rewrite (list_filter_filter_l named named) by tauto.
    apply filter_filter_comm.
  - assert (Hex : existsb (name_is filename) [mkEntry (JStr filename) 1]
                   = true)
      by (cbn [existsb]; rewrite (name_is_self filename 1); reflexivity).
    rewrite existsb_app, Ef, Hex. cbn [negb orb]. split; [reflexivity|].
    rewrite (filter_filter_comm (other_than filename) named).
    rewrite (list_filter_filter_l named named) by tauto. f_equal.
    rewrite filter_app, (filter_other_id filename items Ef).
    rewrite filter_cons_False
      by (unfold other_than; rewrite name_is_self; discriminate).
    rewrite filter_nil. apply app_nil_r.
Qed.

Lemma toggle_twice_witness :
  let w := Examples.world_of ["a.mp4"; "b.mp4"] []
             (Holds (JArr [JObj [("name", JStr "a.mp4"); ("repeats", JInt 3)];
                           JStr "b.mp4"])) Examples.always_fails in
  read_selected
    (playlist_json
       (toggle_playlist "video" "a.mp4"
          (toggle_playlist "video" "a.mp4" w).2).2)
  = [mkEntry (JStr "b.mp4") 1; mkEntry (JStr "a.mp4") 1].
Proof.
  cbv zeta.
  destruct (toggle_twice
    (Examples.world_of ["a.mp4"; "b.mp4"] []
       (Holds (JArr [JObj [("name", JStr "a.mp4"); ("repeats", JInt 3)];
                     JStr "b.mp4"])) Examples.always_fails)
    "video" "a.mp4") as (_ & H).
  - apply (bool_decide_unpack _). vm_compute. exact I.
  - reflexivity.
  - discriminate.
  - etransitivity; [exact H|]. vm_compute. reflexivity.
Defined.

Lemma order_loop_acc (data : list json) : forall normalized,
  order_loop data normalized = normalized ++ flat_map order_entry data.
Proof.
  induction data as [|entry rest IH]; intros normalized.
  - cbn. now rewrite app_nil_r.
  - unfold order_entry.
    destruct entry as [| | | |s| |fields]; cbn [order_loop flat_map];
      try (rewrite IH; reflexivity).
    + rewrite IH. cbn [app]. now rewrite <- app_assoc.
    + destruct (negb (truthy (dict_get fields "name"))).
      * rewrite IH. reflexivity.
      * rewrite IH. cbn [app]. now rewrite <- app_assoc.
Qed.

Lemma order_loop_repeats (data : list json) :
  Forall (fun e => (1 <= e_repeats e)%Z) (order_loop data []).
Proof.
  rewrite order_loop_acc. cbn [app].
  induction data as [|entry rest IH]; [constructor|].
  cbn [flat_map]. apply Forall_app. split; [|exact IH].
  unfold order_entry.
  destruct entry as [| | | |s| |fields]; cbn [order_loop app];
    try constructor; cbn; try lia; try constructor.
  destruct (negb _); repeat constructor. cbn. lia.
Qed.

Lemma order_entry_normalize entry :
  ~ by_filename entry -> order_entry entry = normalize_entry entry.
Proof.
  unfold order_entry, normalize_entry, by_filename.
  destruct entry as [| | | |s| |fields]; try reflexivity.
  intros Hno. cbn [order_loop normalize_loop app]. unfold entry_name, py_or.
  destruct (truthy (dict_get fields "name")) eqn:Hn; cbn [negb].
  - now rewrite Hn.
  - destruct (truthy (dict_get fields "filename")) eqn:Hf; [|reflexivity].
    exfalso. apply Hno. auto.
Qed.

(** X21.  Posting an ordering.  What [api_playlist_order_post]
    normalises is written to the ordering file; the players and the
    dashboard then read its entries of non-empty name, and posting what
    they read saves the same again.  The normalisation is that of the
    readers for every array without an entry that only the legacy key
    [filename] names.  A body that is no array is rejected and nothing
    is written. *)
Theorem posted_order_is_read_back w data :
  let normalized := order_loop data [] in
  let r := api_playlist_order_post (JArr data) w in
  (json_writable w = false -> r = (Ok OrderFailed, w)) /\
  (json_writable w = true ->
   r = (Ok (OrderSaved normalized),
        set_playlist_json (Holds (JArr (map entry_json normalized))) w) /\
   read_selected (playlist_json r.2) = filter named normalized /\
   (api_playlist_order_get r.2).1 = Ok (filter named normalized) /\
   (api_playlist_order_post
      (JArr (map entry_json (filter named normalized))) r.2).1
   = Ok (OrderSaved (filter named normalized))) /\
  (Forall (fun entry => ~ by_filename entry) data ->
   normalized = normalize_loop data []) /\
  (forall value, (forall items, value <> JArr items) ->
     api_playlist_order_post value w = (Ok OrderRejected, w)).
Proof.
  cbv zeta.
  assert (Hrun : api_playlist_order_post (JArr data) w
    = if json_writable w
      then (Ok (OrderSaved (order_loop data [])),
            set_playlist_json
              (Holds (JArr (map entry_json (order_loop data [])))) w)
      else (Ok OrderFailed, w)).
  { unfold api_playlist_order_post. unfold bind. rewrite write_playlist_run.
    now destruct (json_writable w). }
  assert (Hfix : forall l : list Entry,
            Forall (fun e => (1 <= e_repeats e)%Z) l ->
            order_loop (map entry_json (filter named l)) [] = filter named l).
  { intros l Hl. rewrite order_loop_acc. cbn [app].
    induction Hl as [|e rest Hr _ IH]; [reflexivity|].
    destruct (decide (named e)) as [Hn|Hn].
    - rewrite filter_cons_True by exact Hn. cbn [map flat_map]. rewrite IH.
      unfold order_entry, entry_json. cbn [order_loop].
      change (dict_get [("name", e_name e); ("repeats", JInt (e_repeats e))]
                "name") with (e_name e).
      change (entry_repeats [("name", e_name e);
                             ("repeats", JInt (e_repeats e))])
        with (e_repeats e).
      unfold named in Hn. rewrite Hn. cbn. rewrite Z.max_r by assumption.
      now destruct e.
    - now rewrite filter_cons_False by exact Hn. }
  split_and!.
  - intros Hw. now rewrite Hrun, Hw.
  - intros Hw. rewrite Hrun, Hw.
    cbn [fst snd playlist_json set_playlist_json read_selected].
    pose proof (normalize_written (order_loop data [])
                  (order_loop_repeats data)) as Hread.
    split_and!; try reflexivity.
    + exact Hread.
    + unfold api_playlist_order_get. cbv [bind get_world ret]. cbn [fst].
      f_equal. rewrite normalize_read_playlist. exact Hread.
    + unfold api_playlist_order_post. unfold bind.
      rewrite write_playlist_run. cbn [json_writable set_playlist_json].
      rewrite Hw. cbv [ret]. cbn [fst].
      rewrite Hfix; [reflexivity|apply order_loop_repeats].
  - intros Hno. rewrite order_loop_acc, OrderingFacts.normalize_loop_acc.
    cbn [app]. clear Hrun. induction Hno as [|entry rest He _ IH]; [reflexivity|].
    cbn [flat_map]. rewrite IH. now rewrite order_entry_normalize by exact He.
  - intros value Hno. destruct value; try reflexivity.
    now contradiction (Hno items).
Qed.

Lemma posted_order_is_read_back_witness :
  let w := Examples.world_of ["a.mp4"] [] Absent Examples.always_fails in
  let data := [JObj [("name", JStr "a.mp4"); ("repeats", JStr "2")];
               JObj [("filename", JStr "b.mp4")]] in
  read_selected (playlist_json (api_playlist_order_post (JArr data) w).2)
  = [mkEntry (JStr "a.mp4") 2].
Proof.
  cbv zeta.
  destruct (posted_order_is_read_back
    (Examples.world_of ["a.mp4"] [] Absent Examples.always_fails)
    [JObj [("name", JStr "a.mp4"); ("repeats", JStr "2")];
     JObj [("filename", JStr "b.mp4")]]) as (_ & H & _).
  destruct (H eq_refl) as (_ & Hread & _).
  etransitivity; [exact Hread|]. vm_compute. reflexivity.
Defined.

Lemma names_loop_spec name (raw : list json) : forall s,
  names_outcome name s (flat_map normalize_entry raw) (names_loop raw s).
Proof.
  induction raw as [|item rest IH]; intros s.
  - cbn. rewrite orb_false_r. auto.
  - assert (Hstep : forall n r,
      unhashable n = false ->
      names_outcome name s (mkEntry n r :: flat_map normalize_entry rest)
        (names_loop rest (s ++ [n]))).
    { intros n r Hn. specialize (IH (s ++ [n])). unfold names_outcome in *.
      destruct (names_loop rest (s ++ [n])) as [s'|exn].
      - destruct IH as (Hin & Hall). split.
        + rewrite Hin. unfold in_names at 1. rewrite existsb_app.
          cbn [existsb]. rewrite orb_false_r, <- orb_assoc. reflexivity.
        + constructor; [exact Hn|exact Hall].
      - destruct IH as (-> & Hex). split; [reflexivity|]. now right. }
    cbn [flat_map]. unfold normalize_entry at 1.
    destruct item as [| | | |x| |fields]; cbn [names_loop normalize_loop app];
      try apply IH.
    + apply Hstep. unfold unhashable. apply andb_false_r.
    + destruct (truthy (entry_name fields)) eqn:Ht; cbn [app]; [|apply IH].
      destruct (entry_name fields) as [|b|n|fl|x|items|fs] eqn:En;
        try (apply Hstep; unfold unhashable; apply andb_false_r).
      * split; [reflexivity|]. left. cbn [e_name]. unfold unhashable.
        now rewrite Ht.
      * split; [reflexivity|]. left. cbn [e_name]. unfold unhashable.
        now rewrite Ht.
Qed.

(** X22.  The names the dashboard marks as being in the playlist.
    A file name is in [playlist_names_set] exactly when normalisation
    yields an entry of that name; building the set raises [TypeError]
    exactly when some entry has a non-empty list or dictionary as its
    name. *)
Theorem names_set_matches_ordering raw name :
  match playlist_names_set raw with
  | Ok s =>
      in_names name s
      = existsb (name_is name) (normalize_playlist_to_objects raw) /\
      Forall (fun e => unhashable (e_name e) = false)
        (normalize_playlist_to_objects raw)
  | Raised exn =>
      exn = TypeError /\
      Exists (fun e => unhashable (e_name e) = true)
        (normalize_playlist_to_objects raw)
  end.
Proof.
  unfold playlist_names_set, normalize_playlist_to_objects.
  destruct (negb (truthy raw)); [split; [reflexivity|constructor]|].
  destruct raw as [| | | | |items|]; try (split; [reflexivity|constructor]).
  pose proof (names_loop_spec name items []) as H.
  rewrite OrderingFacts.normalize_loop_acc. cbn [app].
  exact H.
Qed.

Lemma send_command_run t a ts w :
  t ∈ ["web"; "signage"] -> a ∈ ["next"; "prev"; "pause"; "play"] ->
  send_command (Some t) (Some a) ts true w
  = (Ok (Sent a t),
     if String.eqb t "web" then set_web_cmd (command_file a ts) w
     else set_signage_cmd (command_file a ts) w).
Proof.
  intros Ht Ha. unfold send_command.
  rewrite !bool_decide_eq_true_2 by assumption. cbn [andb].
  cbv [bind modify ret]. now destruct (String.eqb t "web").
Qed.

Lemma poll_clients_run n w :
  poll_clients n w
  = (Ok (replicate n (mkResponse true
           match web_cmd w with
           | Absent => None
           | Corrupt => Some (JObj [])
           | Holds data => Some data
           end)), w).
Proof.
  induction n as [|n IH]; [reflexivity|].
  cbn [poll_clients]. unfold bind at 1. rewrite RelayFacts.api_command_run.
  unfold bind at 1. rewrite IH. reflexivity.
Qed.

(** X23.  A command for the controller.  [send_command] with the
    target [signage] and one of the four actions writes the command
    file of the controller and leaves everything else; the next poll of
    the controller applies that action and removes the file.  A command
    sent before the poll replaces the one waiting.  When the file
    cannot be written nothing changes. *)
Theorem command_reaches_controller w a ts :
  a ∈ ["next"; "prev"; "pause"; "play"] ->
  let sent := send_command (Some "signage") (Some a) ts true w in
  sent = (Ok (Sent a "signage"), set_signage_cmd (command_file a ts) w) /\
  process_commands_if_any sent.2
  = try_except (apply_action (JStr a)) (fun _ => log_event LogCommandError)
      (consumed (JStr a) sent.2) /\
  signage_cmd (process_commands_if_any sent.2).2 = Absent /\
  (forall b ts', b ∈ ["next"; "prev"; "pause"; "play"] ->
     (send_command (Some "signage") (Some b) ts' true sent.2).2
     = set_signage_cmd (command_file b ts') w) /\
  (send_command (Some "signage") (Some a) ts false w = (Ok SendFailed, w)).
Proof.
  intros Ha. cbv zeta.
  assert (Ht : "signage" ∈ ["web"; "signage"]) by (right; left).
  rewrite (send_command_run "signage" a ts w Ht Ha).
  cbn [String.eqb Ascii.eqb Bool.eqb fst snd].
  assert (Hrun : process_commands_if_any
                   (set_signage_cmd (command_file a ts) w)
    = try_except (apply_action (JStr a)) (fun _ => log_event LogCommandError)
        (consumed (JStr a) (set_signage_cmd (command_file a ts) w))).
  { rewrite process_commands_run by (right; eexists; reflexivity).
    reflexivity. }
  split_and!.
  - reflexivity.
  - exact Hrun.
  - rewrite Hrun. unfold try_except.
    pose proof (apply_action_signage (JStr a)
                  (consumed (JStr a) (set_signage_cmd (command_file a ts) w)))
      as Hs.
    destruct (apply_action (JStr a) _) as [[[]|exn] w1]; cbn [fst snd] in *;
      exact Hs.
  - intros b ts' Hb. rewrite (send_command_run "signage" b ts' _ Ht Hb).
    reflexivity.
  - unfold send_command. rewrite !bool_decide_eq_true_2 by assumption.
    reflexivity.
Qed.

Lemma command_reaches_controller_witness :
  let w := Examples.world_of ["a.mp4"] [] Absent Examples.always_fails in
  signage_cmd
    (process_commands_if_any
       (send_command (Some "signage") (Some "pause") (Qmake 1700000000 1)
          true w).2).2 = Absent.
Proof.
  cbv zeta.
  destruct (command_reaches_controller
    (Examples.world_of ["a.mp4"] [] Absent Examples.always_fails)
    "pause" (Qmake 1700000000 1)) as (_ & _ & H & _).
  - apply (bool_decide_unpack _). vm_compute. exact I.
  - exact H.
Defined.

(** X24.  A command for the web players.  [send_command] with the
    target [web] writes the command file of the stream server and not
    that of the controller; every poll of [/api/command] from then on
    is answered the action with its time stamp.  Any other target or
    action sends nothing. *)
Theorem command_reaches_web_players w a ts n :
  a ∈ ["next"; "prev"; "pause"; "play"] ->
  let sent := send_command (Some "web") (Some a) ts true w in
  sent = (Ok (Sent a "web"), set_web_cmd (command_file a ts) w) /\
  signage_cmd sent.2 = signage_cmd w /\
  poll_clients n sent.2
  = (Ok (replicate n
           (mkResponse true
              (Some (JObj [("action", JStr a);
                           ("ts", JFloat (FFinite ts))])))), sent.2) /\
  (forall target action writable,
     (forall t, target = Some t -> t ∉ ["web"; "signage"]) \/
     (forall b, action = Some b -> b ∉ ["next"; "prev"; "pause"; "play"]) ->
     send_command target action ts writable w = (Ok InvalidCommand, w)).
Proof.
  intros Ha. cbv zeta.
  assert (Ht : "web" ∈ ["web"; "signage"]) by left.
  rewrite (send_command_run "web" a ts w Ht Ha).
  cbn [String.eqb Ascii.eqb Bool.eqb fst snd].
  split_and!; try reflexivity.
  - now rewrite poll_clients_run.
  - intros target action writable Hbad. unfold send_command.
    destruct target as [t|]; [|reflexivity].
    destruct action as [b|]; [|reflexivity].
    destruct Hbad as [H|H].
    + rewrite (bool_decide_eq_false_2 (t ∈ _)) by now apply H.
      reflexivity.
    + rewrite (bool_decide_eq_false_2 (b ∈ _)) by now apply H.
      now rewrite andb_false_r.
Qed.

Lemma command_reaches_web_players_witness :
  let w := Examples.world_of ["a.mp4"] [] Absent Examples.always_fails in
  let sent := send_command (Some "web") (Some "next") (Qmake 1700000000 1)
                true w in
  (poll_clients 2 sent.2).1
  = Ok (replicate 2
          (mkResponse true
             (Some (JObj [("action", JStr "next");
                          ("ts", JFloat (FFinite (Qmake 1700000000 1)))])))).
Proof.
  cbv zeta.
  destruct (command_reaches_web_players
    (Examples.world_of ["a.mp4"] [] Absent Examples.always_fails)
    "next" (Qmake 1700000000 1) 2) as (_ & _ & H & _).
  - apply (bool_decide_unpack _). vm_compute. exact I.
  - now rewrite H.
Defined.



(** X26.  Formats.  A file whose extension, in lower case, is an
    allowed video extension is shown as [VIDEO], and no other file is;
    one whose extension is an allowed presentation extension is shown
    as [PDF] or [PPTX], and no other file is.  The allowed extensions
    are those of the players, so that [convert_presentation] converts
    every allowed presentation as a slide deck or as a PDF.
    [allowed_file] asks the same of the last component of a path. *)
Theorem listed_files_have_a_format filepath :
  let ext := lower (name_suffix (fname filepath)) in
  (ext ∈ ALLOWED_VIDEO_EXTENSIONS <-> get_file_format filepath = "VIDEO") /\
  (ext ∈ ALLOWED_PPT_EXTENSIONS
   <-> get_file_format filepath = "PDF" \/ get_file_format filepath = "PPTX") /\
  (ext ∈ ALLOWED_VIDEO_EXTENSIONS <-> ext ∈ VIDEO_FORMATS) /\
  (ext ∈ ALLOWED_PPT_EXTENSIONS <-> ext ∈ PPT_FORMATS ++ PDF_FORMATS) /\
  (ext ∈ ALLOWED_PPT_EXTENSIONS ->
   convert_presentation filepath
   = if bool_decide (ext ∈ PPT_FORMATS) then convert_pptx filepath
     else convert_pdf filepath) /\
  (forall filename allowed,
     path_name filename = fname filepath ->
     allowed_file filename allowed = bool_decide (ext ∈ allowed)).
Proof.
  cbv zeta. remember (lower (name_suffix (fname filepath))) as ext eqn:Hext.
  assert (Hfmt : get_file_format filepath
    = if String.eqb ext ".pdf" then "PDF"
      else if bool_decide (ext ∈ [".pptx"; ".ppt"]) then "PPTX"
      else if bool_decide (ext ∈ [".mp4"; ".avi"; ".mov"; ".mkv"; ".webm"])
      then "VIDEO" else "UNKNOWN")
    by (unfold get_file_format; now rewrite <- Hext).
  assert (Hconv : convert_presentation filepath
    = if bool_decide (ext ∈ PPT_FORMATS) then convert_pptx filepath
      else if bool_decide (ext ∈ PDF_FORMATS) then convert_pdf filepath
      else bind (log_event (LogUnsupported ext)) (fun _ => ret []))
    by (unfold convert_presentation; now rewrite <- Hext).
  assert (Hallowed : forall filename allowed,
            path_name filename = fname filepath ->
            allowed_file filename allowed = bool_decide (ext ∈ allowed)).
  { intros filename allowed Hn. unfold allowed_file, path_suffix.
    now rewrite Hn, <- Hext. }
  rewrite Hfmt, Hconv. clear Hfmt Hconv Hext.
  unfold ALLOWED_VIDEO_EXTENSIONS, ALLOWED_PPT_EXTENSIONS, VIDEO_FORMATS,
    PPT_FORMATS, PDF_FORMATS. cbn [app].
  destruct (decide (ext ∈ [".mp4"; ".avi"; ".mov"; ".mkv"; ".webm";
                           ".pptx"; ".ppt"; ".pdf"])) as [Hin|Hout].
  - repeat (apply elem_of_cons in Hin as [->|Hin]);
      try (now apply elem_of_nil in Hin);
      (split_and!; try exact Hallowed;
       try (apply (bool_decide_unpack _); vm_compute; exact I);
       intros Hhyp;
       try (exfalso; apply (bool_decide_pack _) in Hhyp;
            vm_compute in Hhyp; exact Hhyp);
       repeat first
         [ rewrite bool_decide_eq_true_2
             by (apply (bool_decide_unpack _); vm_compute; exact I)
         | rewrite bool_decide_eq_false_2
             by (let H := fresh in
                 intros H; apply (bool_decide_pack _) in H;
                 vm_compute in H; exact H) ];
       reflexivity).
  - assert (Hpdf : String.eqb ext ".pdf" = false).
    { apply String.eqb_neq. intros ->. apply Hout.
      apply (bool_decide_unpack _). vm_compute. exact I. }
    assert (Hsub : forall l : list string,
              l ⊆ [".mp4"; ".avi"; ".mov"; ".mkv"; ".webm";
                   ".pptx"; ".ppt"; ".pdf"] -> ext ∉ l)
      by (intros l Hl H; apply Hout, Hl, H).
    assert (H1 : ext ∉ [".pptx"; ".ppt"])
      by (apply Hsub; intros x; rewrite !elem_of_cons, !elem_of_nil; tauto).
    assert (H2 : ext ∉ [".mp4"; ".avi"; ".mov"; ".mkv"; ".webm"])
      by (apply Hsub; intros x; rewrite !elem_of_cons, !elem_of_nil; tauto).
    assert (H3 : ext ∉ [".pptx"; ".ppt"; ".pdf"])
      by (apply Hsub; intros x; rewrite !elem_of_cons, !elem_of_nil; tauto).
    rewrite Hpdf, !(bool_decide_eq_false_2 _ H1), (bool_decide_eq_false_2 _ H2).
    split_and!; try exact Hallowed; try tauto;
      try (split; [intros H; contradiction|]).
    + discriminate.
    + intros [H|H]; discriminate.
Qed.

Lemma listed_files_have_a_format_witness :
  get_file_format (mkPath PRESENTATIONS_DIR "Deck.PDF") = "PDF" /\
  convert_presentation (mkPath PRESENTATIONS_DIR "Deck.PDF")
  = convert_pdf (mkPath PRESENTATIONS_DIR "Deck.PDF").
Proof.
  destruct (listed_files_have_a_format (mkPath PRESENTATIONS_DIR "Deck.PDF"))
    as (_ & Hf & _ & _ & Hc & _).
  split.
  - assert (Hin : lower (name_suffix "Deck.PDF") ∈ ALLOWED_PPT_EXTENSIONS)
      by (apply (bool_decide_unpack _); vm_compute; exact I).
    apply Hf in Hin. destruct Hin as [H|H]; [exact H|].
    vm_compute in H. discriminate.
  - etransitivity; [apply Hc|].
    + apply (bool_decide_unpack _). vm_compute. exact I.
    + rewrite bool_decide_eq_false_2; [reflexivity|].
      intros H. apply (bool_decide_pack _) in H. vm_compute in H. exact H.
Defined.

End EditorFacts.
